(** * Fixed-width transaction parser and grouped aggregator (src/main.py)

    Shallow embedding of [input_text_to_df], [combine_column_values],
    [calculate_total_transaction], the configuration plumbing of [main], and
    the rest of the script: [df_rename], [df_to_csv], [set_logger],
    [read_config], [read_input_text] and the top-level block.

    Modelling choices:
    - a Python [str] is a list of ASCII characters ([str]);
    - a Python [dict] (insertion ordered) is an association list;
    - a pandas [DataFrame] is an ordered list of named columns of [cell]s;
    - exceptions are an [outcome]; the mutable DataFrame and the log are the
      state of a small state/error monad [M];
    - numeric quantities are unbounded integers ([Z]); the statements about
      their sums assume plain integer text small enough for pandas' int64
      and float64 arithmetic to be exact ([plain_quantity]). *)

From Stdlib Require Import Ascii String List ZArith Lia Bool Arith Sorting Permutation.
Import ListNotations.
Open Scope Z_scope.

Definition str := list ascii.

(** String literals of the Python source. *)
Definition py (s : string) : str := list_ascii_of_string s.

Definition newline : ascii := Ascii.ascii_of_nat 10.
Definition space : ascii := " "%char.

Definition str_eqb (a b : str) : bool :=
  if list_eq_dec ascii_dec a b then true else false.

(** ** Python string primitives *)

(** [str.isspace] restricted to ASCII: \t \n \v \f \r, \x1c-\x1f and ' '. *)
Definition is_space (c : ascii) : bool :=
  let n := nat_of_ascii c in
  ((9 <=? n) && (n <=? 13))%nat || ((28 <=? n) && (n <=? 32))%nat.

Fixpoint lstrip (s : str) : str :=
  match s with
  | [] => []
  | c :: r => if is_space c then lstrip r else s
  end.

Definition rstrip (s : str) : str := rev (lstrip (rev s)).

(** [str.strip()] with no argument. *)
Definition strip (s : str) : str := rstrip (lstrip s).

(** [text.split("\n")]: always at least one piece. *)
Fixpoint split_nl (s : str) : list str :=
  match s with
  | [] => [[]]
  | c :: r =>
      if ascii_dec c newline then [] :: split_nl r
      else match split_nl r with
           | l :: ls => (c :: l) :: ls
           | [] => [[c]]
           end
  end.

(** Python slicing [s[i:j]] (step 1) for arbitrary integers [i], [j]:
    negative bounds count from the end, bounds are clamped, never raises. *)
Definition py_slice (s : str) (i j : Z) : str :=
  let n := Z.of_nat (length s) in
  let norm k := if k <? 0 then Z.max 0 (n + k) else Z.min k n in
  let a := norm i in
  let b := norm j in
  if a <? b then firstn (Z.to_nat (b - a)) (skipn (Z.to_nat a) s) else [].

(** [sep.join(xs)]. *)
Fixpoint join (sep : str) (xs : list str) : str :=
  match xs with
  | [] => []
  | [x] => x
  | x :: rest => x ++ sep ++ join sep rest
  end.

(** ** Ordered dictionaries and DataFrames *)

(** The field layout [field_configuration]: field name -> width. *)
Definition layout := list (str * Z).

(** [value_table_dict]: field name -> list of string values. *)
Definition vdict := list (str * list str).

Fixpoint has_key {A} (k : str) (d : list (str * A)) : bool :=
  match d with
  | [] => false
  | (k', _) :: r => str_eqb k k' || has_key k r
  end.

(** [d.setdefault(k, [])]. *)
Definition setdefault (k : str) (d : vdict) : vdict :=
  if has_key k d then d else d ++ [(k, [])].

(** [d[k].append(v)] on a key known to be present. *)
Definition append_at (k : str) (v : str) (d : vdict) : vdict :=
  map (fun '(k', l) => if str_eqb k k' then (k', l ++ [v]) else (k', l)) d.

(** The inner loop of [input_text_to_df] over [field_configuration.items()]
    for one line, with the running cursor [line_pos]. *)
Fixpoint fill_line (fc : layout) (line : str) (line_pos : Z) (d : vdict) : vdict :=
  match fc with
  | [] => d
  | (name, len) :: rest =>
      let d1 := setdefault name d in
      let file_value := strip (py_slice line line_pos (line_pos + len)) in
      fill_line rest line (line_pos + len) (append_at name file_value d1)
  end.

(** Cells of a DataFrame: strings from the parser, numbers from
    [to_numeric] (integers, NaN), and Python [None]. *)
Inductive cell :=
| CStr (s : str)
| CInt (z : Z)
| CNaN
| CNone.

Definition table := list (str * list cell).

(** [DataFrame.from_dict(value_table_dict)]. *)
Definition from_dict (d : vdict) : table :=
  map (fun '(k, l) => (k, map CStr l)) d.

Definition input_text_to_df (text : str) (fc : layout) : table :=
  from_dict (fold_left (fun d line => fill_line fc line 0 d) (split_nl text) []).

(** Number of rows of a DataFrame (length of its index). *)
Definition nrows (t : table) : nat :=
  match t with
  | [] => 0
  | (_, c) :: _ => length c
  end.

Fixpoint lookup_col (k : str) (t : table) : option (list cell) :=
  match t with
  | [] => None
  | (k', c) :: r => if str_eqb k k' then Some c else lookup_col k r
  end.

Definition columns (t : table) : list str := map fst t.

(** [df[k] = col]: overwrite an existing column in place, else append it. *)
Definition set_col_t (k : str) (c : list cell) (t : table) : table :=
  if has_key k t then map (fun '(k', c') => if str_eqb k k' then (k', c) else (k', c')) t
  else t ++ [(k, c)].

(** ** Exceptions, the log and the state/error monad *)

Inductive exn := ValueError | KeyError | TypeError | AttributeError.

Inductive outcome (A : Type) :=
| Ok (a : A)
| Raise (e : exn).
Arguments Ok {A} a.
Arguments Raise {A} e.

Inductive log_entry :=
| LogError (msg : str)
| LogInfo (msg : str).

(** The mutable DataFrame passed to the aggregator and the logging sink. *)
Record st := mkst { st_df : table; st_log : list log_entry }.

Definition M (A : Type) := st -> st * outcome A.

Definition ret {A} (a : A) : M A := fun s => (s, Ok a).
Definition raise {A} (e : exn) : M A := fun s => (s, Raise e).
Definition bind {A B} (m : M A) (k : A -> M B) : M B :=
  fun s => match m s with
           | (s', Ok a) => k a s'
           | (s', Raise e) => (s', Raise e)
           end.
Notation "x <- m ;; k" := (bind m (fun x => k))
  (at level 61, m at next level, right associativity).

(** [try: body except: handler else: els]. *)
Definition try_except_else {A B} (body : M A) (handler : exn -> M B) (els : A -> M B) : M B :=
  fun s => match body s with
           | (s', Ok a) => els a s'
           | (s', Raise e) => handler e s'
           end.

Definition get_df : M table := fun s => (s, Ok (st_df s)).
Definition get_col (k : str) : M (list cell) :=
  fun s => match lookup_col k (st_df s) with
           | Some c => (s, Ok c)
           | None => (s, Raise KeyError)
           end.
Definition set_col (k : str) (c : list cell) : M unit :=
  fun s => (mkst (set_col_t k c (st_df s)) (st_log s), Ok tt).
Definition log (e : log_entry) : M unit :=
  fun s => (mkst (st_df s) (st_log s ++ [e]), Ok tt).

Fixpoint mapM {A B} (f : A -> M B) (l : list A) : M (list B) :=
  match l with
  | [] => ret []
  | x :: r => y <- f x ;; ys <- mapM f r ;; ret (y :: ys)
  end.

(** ** [pandas.to_numeric] (default [errors='raise'])

    [to_numeric_cell] follows pandas on the quantity text of [plain_quantity]
    below: the empty string becomes NaN, an optional sign followed by decimal
    digits becomes that integer.  Outside that text it is not pandas: it
    rejects float literals, surrounding blanks and "inf", which pandas
    converts, and it accepts integers that pandas refuses ("Integer out of
    range") or leaves unconverted (a value above the int64 range together
    with a negative or an empty one).  The statements that use it assume plain
    quantities; the one about failed conversions takes the conversion as a
    parameter ([to_numeric_by]). *)
Fixpoint digits_val (s : str) (acc : Z) : option Z :=
  match s with
  | [] => Some acc
  | c :: r =>
      let n := nat_of_ascii c in
      if ((48 <=? n) && (n <=? 57))%nat
      then digits_val r (acc * 10 + Z.of_nat (n - 48))
      else None
  end.

Definition parse_int (s : str) : option Z :=
  match s with
  | [] => None
  | c :: r =>
      if ascii_dec c "-"%char then
        match r with [] => None | _ => option_map Z.opp (digits_val r 0) end
      else if ascii_dec c "+"%char then
        match r with [] => None | _ => digits_val r 0 end
      else digits_val s 0
  end.

Definition to_numeric_cell (c : cell) : option cell :=
  match c with
  | CStr [] => Some CNaN
  | CStr s => option_map CInt (parse_int s)
  | CInt z => Some (CInt z)
  | CNaN => Some CNaN
  | CNone => Some CNaN
  end.

Fixpoint map_opt {A B} (f : A -> option B) (l : list A) : option (list B) :=
  match l with
  | [] => Some []
  | x :: r =>
      match f x, map_opt f r with
      | Some y, Some ys => Some (y :: ys)
      | _, _ => None
      end
  end.

(** [to_numeric(col)] for a conversion [conv]: [conv col] is the converted
    column, or [None] when the conversion raises. *)
Definition to_numeric_by (conv : list cell -> option (list cell)) (col : list cell) : M (list cell) :=
  match conv col with
  | Some c => ret c
  | None => raise ValueError
  end.

Definition to_numeric (col : list cell) : M (list cell) :=
  to_numeric_by (map_opt to_numeric_cell) col.

(** Quantity text on which [to_numeric_cell] and pandas agree: the empty
    string, or an optional sign and decimal digits of at most 17 characters.
    Such a value lies within int64, and pandas' float parser reads it exactly
    when it is at most 2^53 in absolute value. *)
Definition plain_quantity (c : cell) : bool :=
  match c with
  | CStr [] => true
  | CStr s => (length s <=? 17)%nat && match parse_int s with Some _ => true | None => false end
  | _ => false
  end.

(** The absolute value of an integer quantity (0 for the empty string). *)
Definition quantity_magnitude (c : cell) : Z :=
  match c with
  | CStr s => match parse_int s with Some z => Z.abs z | None => 0 end
  | _ => 0
  end.

(** ** [combine_column_values] *)

(** [row[column_list]] for the row at position [i]: [KeyError] when the
    list is missing ([None]) or names an absent column. *)
Definition row_select (t : table) (i : nat) (column_list : option (list str))
  : outcome (list cell) :=
  match column_list with
  | None => Raise KeyError
  | Some names =>
      match map_opt (fun k => lookup_col k t) names with
      | Some cols => Ok (map (fun c => nth i c CNone) cols)
      | None => Raise KeyError
      end
  end.

Definition cell_str (c : cell) : option str :=
  match c with CStr s => Some s | _ => None end.

(** ["_".join(values)]: [TypeError] on a non-string value. *)
Definition join_cells (vs : list cell) : outcome cell :=
  match map_opt cell_str vs with
  | Some ss => Ok (CStr (join (py "_") ss))
  | None => Raise TypeError
  end.

Definition lift {A} (o : outcome A) : M A :=
  fun s => (s, o).

Definition combine_column_values (i : nat) (column_list : option (list str)) : M cell :=
  try_except_else
    (t <- get_df ;; vs <- lift (row_select t i column_list) ;; lift (join_cells vs))
    (fun _ => _ <- log (LogError (py "exception occurred")) ;; ret CNone)
    (fun v => ret v).

(** [df.apply(combine_column_values, axis=1, column_list=...)].  On a table
    without rows pandas also calls the function once on a row of NaN to infer
    the result's shape, which may log an error; that call is not modelled, and
    no statement below depends on the log of a call on a table without rows. *)
Definition apply_combine (column_list : option (list str)) : M (list cell) :=
  t <- get_df ;;
  mapM (fun i => combine_column_values i column_list) (seq 0 (nrows t)).

(** ** [groupby(['product_info', 'client_info']).agg(sum).reset_index()]

    pandas defaults: [dropna=True] (rows whose key holds None or NaN are
    left out), [sort=True] (groups ordered by key), and [sum] skips NaN. *)

Definition is_na (c : cell) : bool :=
  match c with CNone | CNaN => true | _ => false end.

Definition num (c : cell) : Z :=
  match c with CInt z => z | _ => 0 end.

Definition cell_eqb (a b : cell) : bool :=
  match a, b with
  | CStr x, CStr y => str_eqb x y
  | CInt x, CInt y => Z.eqb x y
  | CNaN, CNaN => true
  | CNone, CNone => true
  | _, _ => false
  end.

Definition key := (cell * cell)%type.

Definition key_eqb (a b : key) : bool :=
  cell_eqb (fst a) (fst b) && cell_eqb (snd a) (snd b).

(** The accumulator: one entry per key seen, with the two running sums. *)
Definition acc_add (k : key) (x y : Z) (acc : list (key * (Z * Z))) : list (key * (Z * Z)) :=
  if existsb (fun '(k', _) => key_eqb k k') acc
  then map (fun '(k', (a, b)) => if key_eqb k k' then (k', (a + x, b + y)) else (k', (a, b))) acc
  else acc ++ [(k, (x, y))].

Definition group_step (acc : list (key * (Z * Z))) (r : key * (cell * cell))
  : list (key * (Z * Z)) :=
  let '(k, (l, s)) := r in
  if is_na (fst k) || is_na (snd k) then acc else acc_add k (num l) (num s) acc.

(** Python string order (code points). *)
Fixpoint str_compare (a b : str) : comparison :=
  match a, b with
  | [], [] => Eq
  | [], _ :: _ => Lt
  | _ :: _, [] => Gt
  | x :: a', y :: b' =>
      match Ascii.compare x y with
      | Eq => str_compare a' b'
      | c => c
      end
  end.

Definition cell_compare (a b : cell) : comparison :=
  match a, b with
  | CStr x, CStr y => str_compare x y
  | _, _ => Eq
  end.

Definition key_ltb (a b : key) : bool :=
  match cell_compare (fst a) (fst b) with
  | Lt => true
  | Eq => match cell_compare (snd a) (snd b) with Lt => true | _ => false end
  | Gt => false
  end.

Fixpoint insert_group (g : key * (Z * Z)) (l : list (key * (Z * Z))) : list (key * (Z * Z)) :=
  match l with
  | [] => [g]
  | h :: r => if key_ltb (fst g) (fst h) then g :: h :: r else h :: insert_group g r
  end.

Definition sort_groups (l : list (key * (Z * Z))) : list (key * (Z * Z)) :=
  fold_right insert_group [] l.

(** Rows of the four columns, position by position. *)
Definition group_rows (pc cc lc sc : list cell) : list (key * (cell * cell)) :=
  combine (combine pc cc) (combine lc sc).

Definition groupby_sum (pc cc lc sc : list cell) : list (key * (Z * Z)) :=
  sort_groups (fold_left group_step (group_rows pc cc lc sc) []).

(** A row of [grouped_df]. *)
Record summary := mksummary {
  product_info : cell;
  client_info : cell;
  quantity_long_sum : Z;
  quantity_short_sum : Z;
  total_transaction_amount : Z
}.

(** [grouped_df['total_transaction_amount'] = long_sum - short_sum]. *)
Definition add_total (g : key * (Z * Z)) : summary :=
  let '((p, c), (l, s)) := g in mksummary p c l s (l - s).

(** ** [calculate_total_transaction], for a conversion [conv] standing for
    [to_numeric] *)
Definition calculate_total_transaction_by (conv : list cell -> option (list cell))
  (group_by_client_info_columns group_by_product_info_columns : option (list str))
  : M (option (list summary)) :=
  try_except_else
    (ql <- get_col (py "quantity_long") ;;
     nl <- to_numeric_by conv ql ;;
     _ <- set_col (py "quantity_long_sum") nl ;;
     qs <- get_col (py "quantity_short") ;;
     ns <- to_numeric_by conv qs ;;
     _ <- set_col (py "quantity_short_sum") ns ;;
     ci <- apply_combine group_by_client_info_columns ;;
     _ <- set_col (py "client_info") ci ;;
     pi <- apply_combine group_by_product_info_columns ;;
     _ <- set_col (py "product_info") pi ;;
     pc <- get_col (py "product_info") ;;
     cc <- get_col (py "client_info") ;;
     lc <- get_col (py "quantity_long_sum") ;;
     sc <- get_col (py "quantity_short_sum") ;;
     ret (map add_total (groupby_sum pc cc lc sc)))
    (fun _ => _ <- log (LogError (py "exception occurred")) ;; ret None)
    (fun g => _ <- log (LogInfo (py "Successfully completed the calculate_total_transaction module. Returning the grouped_df")) ;;
              ret (Some g)).

(** [calculate_total_transaction] with the model's [to_numeric]. *)
Definition calculate_total_transaction
  (group_by_client_info_columns group_by_product_info_columns : option (list str))
  : M (option (list summary)) :=
  calculate_total_transaction_by (map_opt to_numeric_cell)
    group_by_client_info_columns group_by_product_info_columns.

(** Run the aggregator on a DataFrame with an empty log. *)
Definition run_calc (df : table) (cl pl : option (list str))
  : st * outcome (option (list summary)) :=
  calculate_total_transaction cl pl (mkst df []).

Definition run_calc_by (conv : list cell -> option (list cell)) (df : table) (cl pl : option (list str))
  : st * outcome (option (list summary)) :=
  calculate_total_transaction_by conv cl pl (mkst df []).

(** The records [logging.error("exception occurred")] and the aggregator's
    success message. *)
Definition err_entry : log_entry := LogError (py "exception occurred").
Definition ok_entry : log_entry :=
  LogInfo (py "Successfully completed the calculate_total_transaction module. Returning the grouped_df").

(** ** [main]: the configuration plumbing up to the aggregation *)

(** The keys of [script_config.json] that [main] reads. *)
Record config := mkconfig {
  cfg_input_file_path : option str;
  cfg_field_configuration : option layout;
  cfg_group_by_client_info_columns : option (list str);
  cfg_group_by_product_info_columns : option (list str);
  cfg_output_csv_path : option str
}.

Definition truthy {A} (o : option (list A)) : bool :=
  match o with Some (_ :: _) => true | _ => false end.

(** [main] up to the call of [calculate_total_transaction]: the resulting
    transactions DataFrame, the log and the aggregator's return value, or
    [None] when [main] stops early.  [read_input_text] is [read_file]
    ([None] when the file cannot be read, so [text.split] raises). *)
Definition main_run (cfg : config) (read_file : str -> option str)
  : outcome (option (table * list log_entry * option (list summary))) :=
  match cfg_input_file_path cfg with
  | Some ((_ :: _) as input_file_path) =>
      let input_text := read_file input_file_path in
      match cfg_field_configuration cfg with
      | Some ((_ :: _) as field_configuration) =>
          match input_text with
          | None => Raise AttributeError
          | Some text =>
              let transactions_df := input_text_to_df text field_configuration in
              let group_by_client_info_columns := cfg_group_by_client_info_columns cfg in
              let group_by_product_info_columns := cfg_group_by_client_info_columns cfg in
              match run_calc transactions_df group_by_client_info_columns
                             group_by_product_info_columns with
              | (s, Ok r) => Ok (Some (st_df s, st_log s, r))
              | (_, Raise e) => Raise e
              end
          end
      | _ => Ok None
      end
  | _ => Ok None
  end.

(** ** The rest of [main.py]: [df_rename], [df_to_csv], [set_logger],
    [read_config], [read_input_text], [main] and the top-level block

    The outside world is an [env]: the parsed configuration ([None] when
    [read_config] fails, which only prints), the readable files, the log
    levels and the writable paths.  The script's effects are the log records
    it issues, the CSV files it writes and the logging configuration. *)

Definition is_upper (c : ascii) : bool := let n := nat_of_ascii c in ((65 <=? n) && (n <=? 90))%nat.

Definition is_lower (c : ascii) : bool := let n := nat_of_ascii c in ((97 <=? n) && (n <=? 122))%nat.

(** Cased characters (ASCII letters). *)
Definition is_cased (c : ascii) : bool := is_upper c || is_lower c.

Definition to_upper (c : ascii) : ascii :=
  if is_lower c then ascii_of_nat (nat_of_ascii c - 32) else c.

Definition to_lower (c : ascii) : ascii :=
  if is_upper c then ascii_of_nat (nat_of_ascii c + 32) else c.

(** [str.title()]: a cased character is upper-cased when the character
    before it is not cased, and lower-cased otherwise. *)
Fixpoint title_from (previous_is_cased : bool) (s : str) : str :=
  match s with
  | [] => []
  | c :: r =>
      let c' := if previous_is_cased then to_lower c else to_upper c in
      c' :: title_from (is_cased c') r
  end.

Definition py_title (s : str) : str := title_from false s.

(** [s.replace(old, new)] for one-character [old] and [new]. *)
Definition py_replace_char (old new : ascii) (s : str) : str :=
  map (fun c => if ascii_dec c old then new else c) s.

(** The new name [df_rename] gives a column. *)
Definition rename_column (col_name : str) : str :=
  py_title (py_replace_char "_"%char " "%char col_name).

(** [df.rename(columns={...}, inplace=True)] with the dictionary of [df_rename]. *)
Definition df_rename_t (t : table) : table := map (fun '(k, c) => (rename_column k, c)) t.

(** The columns of [grouped_df] (after [reset_index] and the total). *)
Definition grouped_columns : list str :=
  [py "product_info"; py "client_info"; py "quantity_long_sum"; py "quantity_short_sum";
   py "total_transaction_amount"].

Definition stars : str := repeat "*"%char 25.

Definition main_module_error : log_entry := LogError (py "exception occurred while calling the main module").

Definition script_completed : log_entry :=
  LogInfo (py "Successfully completed the whole script. Please check the output file.").

Definition script_ended : log_entry := LogInfo (stars ++ py "SCRIPT ENDED" ++ stars).

Definition script_started : log_entry := LogInfo (stars ++ py "SCRIPT STARTED" ++ stars).

Definition logger_ready : log_entry := LogInfo (py "Log Level set successfully and program started").

Definition renamed_entry : log_entry :=
  LogInfo (py "Successfully converted the df column names to title letters.").

Definition no_field_configuration : log_entry :=
  LogError (py "Couldn't read field_configuration from the config file: script_config.json. Hence not proceeding. Please check script_config.json").

Definition no_input_file_path : log_entry :=
  LogError (py "Couldn't read input_file_path. Hence not proceeding").

(** What the script reads from [script_config.json]. *)
Record script_config := mkscfg {
  sc_python_log_level : option str;
  sc_log_file_path : option str;
  sc_main : config
}.

(** What [eval(f"logging.{name}")] gives: an [int], which [setLevel]
    accepts as a level (e.g. for "DEBUG"); another object, which [setLevel]
    refuses with [TypeError] or [ValueError] (e.g. the function [logging.info]
    for "info"); or an exception (e.g. [AttributeError] for "VERBOSE"). *)
Inductive level_eval := EvalInt | EvalOther | EvalRaises.

(** The outside world: the parsed configuration file ([None] when
    [read_config] fails), the files that can be read, what
    [eval("logging." + name)] gives, and the paths that can be opened for
    writing. *)
Record env := mkenv {
  env_config : option script_config;
  env_read : str -> option str;
  env_level : str -> level_eval;
  env_writable : str -> bool
}.

(** A written CSV file: its path, its header and its rows. *)
Definition csv_file := (str * list str * list summary)%type.

(** The root logger's level: [logging.INFO], the level [eval] gave for the
    configured name, or WARNING, the default it keeps when [setLevel] raises. *)
Inductive root_level := RootINFO | RootNamed (name : str) | RootWARNING.

(** The script's effects: log records issued, files written, and the
    logging configuration [basicConfig] installed (root level, log file
    path); [None] while it has installed no handler. *)
Record sst := mksst {
  ss_log : list log_entry;
  ss_files : list csv_file;
  ss_logging : option (root_level * str)
}.

Definition ss_add_log (e : log_entry) (s : sst) : sst :=
  mksst (ss_log s ++ [e]) (ss_files s) (ss_logging s).

(** What the level expression of [set_logger] gives: [logging.INFO], an
    [int], for a falsy value, [eval(f"logging.{python_log_level}")] otherwise. *)
Definition level_eval_of (E : env) (python_log_level : option str) : level_eval :=
  match python_log_level with
  | Some ((_ :: _) as name) => env_level E name
  | _ => EvalInt
  end.

(** Whether that expression gives a level [setLevel] accepts. *)
Definition level_accepted (E : env) (python_log_level : option str) : bool :=
  match level_eval_of E python_log_level with EvalInt => true | _ => false end.

(** The level [basicConfig] sets when it accepts it, and the log file. *)
Definition log_level_of (python_log_level : option str) : root_level :=
  match python_log_level with Some ((_ :: _) as name) => RootNamed name | _ => RootINFO end.

Definition log_path_of (log_file_path : option str) : str :=
  match log_file_path with Some ((_ :: _) as p) => p | _ => py "transactions.log" end.

(** Whether [set_logger] returns: the level is accepted and [basicConfig]
    can open the log file. *)
Definition logger_accepts (E : env) (python_log_level log_file_path : option str) : bool :=
  level_accepted E python_log_level && env_writable E (log_path_of log_file_path).

(** [set_logger(python_log_level, log_file_path)].  [eval] runs first; then
    [basicConfig] opens the log file ([FileHandler]), adds the handler to the
    root logger, and only then calls [setLevel]; so a level that [setLevel]
    refuses leaves the file handler installed with the root's default level.
    The kind of exception is modelled loosely ([OSError] for the log file is
    not in [exn]; the top-level handler catches any). *)
Definition set_logger (E : env) (python_log_level log_file_path : option str) (s : sst)
  : sst * outcome unit :=
  match level_eval_of E python_log_level with
  | EvalRaises => (s, Raise AttributeError)
  | ev =>
      if env_writable E (log_path_of log_file_path) then
        match ev with
        | EvalInt =>
            (mksst (ss_log s ++ [script_started; logger_ready]) (ss_files s)
               (Some (log_level_of python_log_level, log_path_of log_file_path)), Ok tt)
        | _ => (mksst (ss_log s) (ss_files s) (Some (RootWARNING, log_path_of log_file_path)),
                Raise TypeError)
        end
      else (s, Raise AttributeError)
  end.

(** [read_input_text(text_path)]. *)
Definition read_input_text (E : env) (text_path : str) (s : sst) : sst * option str :=
  match env_read E text_path with
  | Some text => (s, Some text)
  | None => (ss_add_log err_entry s, None)
  end.

(** [df_to_csv(csv_path, df)], [df_rename] included; [df] is [None] or
    [grouped_df]. [to_csv(None)] returns the text and writes nothing. *)
Definition df_to_csv (E : env) (csv_path : option str) (df : option (list summary)) (s : sst) : sst :=
  match df with
  | None => ss_add_log err_entry (ss_add_log err_entry s)
  | Some gs =>
      let s1 := ss_add_log renamed_entry s in
      match csv_path with
      | None => s1
      | Some p =>
          if env_writable E p
          then mksst (ss_log s1) (ss_files s1 ++ [(p, map rename_column grouped_columns, gs)])
                     (ss_logging s1)
          else ss_add_log err_entry s1
      end
  end.

(** [main()]. *)
Definition main_script (E : env) (s : sst) : sst * outcome unit :=
  match env_config E with
  | None => (s, Raise AttributeError)
  | Some sc =>
      match set_logger E (sc_python_log_level sc) (sc_log_file_path sc) s with
      | (s1, Raise e) => (s1, Raise e)
      | (s1, Ok _) =>
          let cfg := sc_main sc in
          match cfg_input_file_path cfg with
          | Some ((_ :: _) as input_file_path) =>
              let (s2, input_text) := read_input_text E input_file_path s1 in
              match cfg_field_configuration cfg with
              | Some ((_ :: _) as field_configuration) =>
                  match input_text with
                  | None => (s2, Raise AttributeError)
                  | Some text =>
                      let transactions_df := input_text_to_df text field_configuration in
                      let group_by_client_info_columns := cfg_group_by_client_info_columns cfg in
                      let group_by_product_info_columns := cfg_group_by_client_info_columns cfg in
                      match run_calc transactions_df group_by_client_info_columns
                                     group_by_product_info_columns with
                      | (cs, Ok r) =>
                          let s3 := mksst (ss_log s2 ++ st_log cs) (ss_files s2) (ss_logging s2) in
                          (df_to_csv E (cfg_output_csv_path cfg) r s3, Ok tt)
                      | (cs, Raise e) =>
                          (mksst (ss_log s2 ++ st_log cs) (ss_files s2) (ss_logging s2), Raise e)
                      end
                  end
              | _ => (ss_add_log no_field_configuration s2, Ok tt)
              end
          | _ => (ss_add_log no_input_file_path s1, Ok tt)
          end
      end
  end.

(** The [if __name__ == '__main__'] block. *)
Definition run_script (E : env) : sst :=
  match main_script E (mksst [] [] None) with
  | (s, Ok _) => ss_add_log script_ended (ss_add_log script_completed s)
  | (s, Raise _) => ss_add_log main_module_error s
  end.

Definition csv_header : list str :=
  [py "Product Info"; py "Client Info"; py "Quantity Long Sum"; py "Quantity Short Sum";
   py "Total Transaction Amount"].

(** ** Definitions used by the statements *)

(** Each field with its width and the cursor at which it is sliced. *)
Fixpoint with_cursors (fc : layout) (pos : Z) : list (str * Z * Z) :=
  match fc with
  | [] => []
  | (n, w) :: rest => (n, w, pos) :: with_cursors rest (pos + w)
  end.

(** Sum of the widths of a list of fields. *)
Definition sum_widths (fc : layout) : Z := fold_right (fun f acc => snd f + acc) 0 fc.

(** The line of the round-trip property: each value padded with spaces
    or truncated to its field's width, then concatenated. *)
Definition pad_field (v : str) (w : Z) : str :=
  firstn (Z.to_nat w) v ++ repeat space (Z.to_nat w - length v).

Fixpoint fixed_width_line (vals : list str) (fc : layout) : str :=
  match vals, fc with
  | v :: vs, (_, w) :: fs => pad_field v w ++ fixed_width_line vs fs
  | _, _ => []
  end.

Definition sumZ {A} (f : A -> Z) (l : list A) : Z := fold_right (fun x z => f x + z) 0 l.

Definition is_str_key (k : key) : Prop :=
  match k with (CStr _, CStr _) => True | _ => False end.



(** Sum of a numeric column over the rows whose two keys hold no None or NaN. *)
Definition kept_sum (pc cc vals : list cell) : Z :=
  fold_right (fun i acc =>
                (if is_na (nth i pc CNone) || is_na (nth i cc CNone) then 0
                 else num (nth i vals CNone)) + acc)
             0 (seq 0 (length pc)).


(** The int64 range, and the integers a float64 represents exactly (a
    superset of them: the exponent is not bounded above). *)
Definition in_int64 (z : Z) : bool := (- 2 ^ 63 <=? z) && (z <=? 2 ^ 63 - 1).

Definition binary64_integer (z : Z) : Prop :=
  exists m e, 0 <= e /\ Z.abs m < 2 ^ 53 /\ z = m * 2 ^ e.

(** An integer literal within int64. *)
Definition int64_literal (c : cell) : bool :=
  match c with
  | CStr s => match parse_int s with Some z => in_int64 z | None => false end
  | _ => false
  end.

(** Two rows of one group whose [quantity_long] values add up past int64. *)
Definition overflow_layout : layout :=
  [(py "client", 4); (py "product", 4); (py "quantity_long", 20); (py "quantity_short", 20)].

Definition overflow_df : table :=
  input_text_to_df
    (fixed_width_line [py "C001"; py "P001"; py "9223372036854775807"; py "0"] overflow_layout ++
     [newline] ++ fixed_width_line [py "C001"; py "P001"; py "2"; py "0"] overflow_layout)
    overflow_layout.


(** ** Parser lemmas *)

Lemma str_eqb_eq (a b : str) : str_eqb a b = true <-> a = b.
Proof.
  unfold str_eqb; destruct (list_eq_dec ascii_dec a b); split; congruence.
Qed.

Lemma str_eqb_refl (a : str) : str_eqb a a = true.
Proof. apply str_eqb_eq; reflexivity. Qed.

Lemma str_eqb_neq (a b : str) : a <> b -> str_eqb a b = false.
Proof.
  intro H; destruct (str_eqb a b) eqn:E; [apply str_eqb_eq in E; congruence | reflexivity].
Qed.

Lemma has_key_in {A} (k : str) (d : list (str * A)) :
  has_key k d = true <-> In k (map fst d).
Proof.
  induction d as [|[k' v] r IH]; simpl; [split; congruence || tauto|].
  rewrite orb_true_iff, IH, str_eqb_eq; split; intros [H|H]; auto.
Qed.

Lemma append_at_absent (k v : str) (d : vdict) :
  ~ In k (map fst d) -> append_at k v d = d.
Proof.
  induction d as [|[k' l] r IH]; simpl; intro H; [reflexivity|].
  rewrite str_eqb_neq by (intros ->; apply H; left; reflexivity).
  f_equal. apply IH; tauto.
Qed.

Lemma append_at_app (k v : str) (d1 d2 : vdict) :
  append_at k v (d1 ++ d2) = append_at k v d1 ++ append_at k v d2.
Proof. unfold append_at; apply map_app. Qed.

Lemma with_cursors_names (fc : layout) (pos : Z) :
  map (fun x => fst (fst x)) (with_cursors fc pos) = map fst fc.
Proof.
  revert pos; induction fc as [|[n w] r IH]; intro pos; simpl; [reflexivity|].
  f_equal; apply IH.
Qed.

(** The value a line gives a field of width [w] sliced at cursor [c]. *)
Definition field_value (line : str) (w c : Z) : str := strip (py_slice line c (c + w)).

(** First line: every field of the layout is a new key. *)
Lemma fill_line_fresh (fc : layout) (line : str) (pos : Z) (pre : vdict) :
  NoDup (map fst fc) ->
  (forall n, In n (map fst fc) -> ~ In n (map fst pre)) ->
  fill_line fc line pos pre =
  pre ++ map (fun '(n, w, c) => (n, [field_value line w c])) (with_cursors fc pos).
Proof.
  revert pos pre; induction fc as [|[n w] r IH]; intros pos pre Hnd Hdis; simpl.
  - rewrite app_nil_r; reflexivity.
  - inversion Hnd as [|? ? Hn Hnd']; subst.
    unfold setdefault.
    assert (Hnp : ~ In n (map fst pre)) by (apply Hdis; simpl; auto).
    assert (has_key n pre = false) as ->.
    { destruct (has_key n pre) eqn:E; [apply has_key_in in E; contradiction|reflexivity]. }
    rewrite append_at_app, append_at_absent by assumption.
    simpl. rewrite str_eqb_refl. simpl.
    rewrite IH; [| assumption |].
    + rewrite <- app_assoc; reflexivity.
    + intros m Hm Hin. rewrite map_app in Hin; apply in_app_or in Hin as [Hin|Hin].
      * apply (Hdis m); simpl; auto.
      * simpl in Hin; destruct Hin as [<-|[]]; contradiction.
Qed.

(** Later lines: every field of the layout is already a key. *)
Lemma fill_line_existing (fc : layout) (line : str) (pos : Z) (pre : vdict)
      (F : str -> Z -> Z -> list str) :
  NoDup (map fst fc) ->
  (forall n, In n (map fst fc) -> ~ In n (map fst pre)) ->
  fill_line fc line pos (pre ++ map (fun '(n, w, c) => (n, F n w c)) (with_cursors fc pos)) =
  pre ++ map (fun '(n, w, c) => (n, F n w c ++ [field_value line w c])) (with_cursors fc pos).
Proof.
  revert pos pre; induction fc as [|[n w] r IH]; intros pos pre Hnd Hdis; simpl; [reflexivity|].
  inversion Hnd as [|? ? Hn Hnd']; subst.
  assert (Hnp : ~ In n (map fst pre)) by (apply Hdis; simpl; auto).
  unfold setdefault.
  assert (has_key n (pre ++ (n, F n w pos) :: map (fun '(n0, w0, c) => (n0, F n0 w0 c))
                                             (with_cursors r (pos + w))) = true) as ->.
  { apply has_key_in. rewrite map_app; apply in_or_app; right; simpl; auto. }
  rewrite append_at_app, append_at_absent by assumption.
  simpl. rewrite str_eqb_refl.
  rewrite append_at_absent.
  2:{ rewrite map_map.
      replace (map (fun x => fst (let '(n0, w0, c) := x in (n0, F n0 w0 c)))
                   (with_cursors r (pos + w)))
        with (map (fun x => fst (fst x)) (with_cursors r (pos + w))).
      - rewrite with_cursors_names; assumption.
      - apply map_ext; intros [[a b] c]; reflexivity. }
  change (strip (py_slice line pos (pos + w))) with (field_value line w pos).
  replace (pre ++ (n, F n w pos ++ [field_value line w pos]) ::
               map (fun '(n0, w0, c) => (n0, F n0 w0 c)) (with_cursors r (pos + w)))
    with ((pre ++ [(n, F n w pos ++ [field_value line w pos])]) ++
               map (fun '(n0, w0, c) => (n0, F n0 w0 c)) (with_cursors r (pos + w)))
    by (rewrite <- app_assoc; reflexivity).
  rewrite IH; [rewrite <- app_assoc; reflexivity | assumption |].
  intros m Hm Hin. rewrite map_app in Hin; apply in_app_or in Hin as [Hin|Hin].
  - apply (Hdis m); simpl; auto.
  - simpl in Hin; destruct Hin as [<-|[]]; contradiction.
Qed.

(** The dictionary built from a list of lines. *)
Definition parse_cols (fc : layout) (lines : list str) : vdict :=
  map (fun '(n, w, c) => (n, map (fun l => field_value l w c) lines)) (with_cursors fc 0).

Lemma parse_cols_step (fc : layout) (lines : list str) (l : str) :
  NoDup (map fst fc) ->
  fill_line fc l 0 (parse_cols fc lines) = parse_cols fc (lines ++ [l]).
Proof.
  intro Hnd. unfold parse_cols.
  pose proof (fill_line_existing fc l 0 []
                (fun n w c => map (fun l0 => field_value l0 w c) lines) Hnd) as H.
  simpl in H. rewrite H by (intros; tauto).
  apply map_ext; intros [[n w] c]. rewrite map_app; reflexivity.
Qed.

Lemma fold_parse_cols (fc : layout) (ls lines : list str) :
  NoDup (map fst fc) ->
  fold_left (fun d line => fill_line fc line 0 d) ls (parse_cols fc lines) =
  parse_cols fc (lines ++ ls).
Proof.
  intro Hnd; revert lines; induction ls as [|l ls IH]; intro lines; simpl.
  - rewrite app_nil_r; reflexivity.
  - rewrite parse_cols_step by assumption. rewrite IH, <- app_assoc; reflexivity.
Qed.

Lemma split_nl_nonempty (s : str) : exists l ls, split_nl s = l :: ls.
Proof.
  induction s as [|c r [l [ls IH]]]; simpl; [eauto|].
  destruct (ascii_dec c newline); [eauto|]. rewrite IH; eauto.
Qed.

(** Shape of the parsed table: one column per field, in layout order,
    holding the field's value in every line. *)
Lemma input_text_to_df_shape (text : str) (fc : layout) :
  NoDup (map fst fc) ->
  input_text_to_df text fc = from_dict (parse_cols fc (split_nl text)).
Proof.
  intro Hnd. unfold input_text_to_df.
  destruct (split_nl_nonempty text) as [l0 [ls ->]]. simpl.
  rewrite (fill_line_fresh fc l0 0 []) by (simpl; tauto || (intros; tauto)).
  simpl. change (map (fun '(n, w, c) => (n, [field_value l0 w c])) (with_cursors fc 0))
    with (parse_cols fc [l0]).
  rewrite fold_parse_cols by assumption. reflexivity.
Qed.

Lemma lookup_with_cursors (fc : layout) (lines : list str) (k : nat) n w pos :
  NoDup (map fst fc) -> nth_error fc k = Some (n, w) ->
  lookup_col n (map (fun '(n0, w0, c) => (n0, map (fun l => CStr (field_value l w0 c)) lines))
                    (with_cursors fc pos)) =
  Some (map (fun l => CStr (field_value l w (pos + sum_widths (firstn k fc)))) lines).
Proof.
  intros Hnd; revert k pos; induction fc as [|[n' w'] r IH]; intros k pos Hk;
    [destruct k; discriminate|].
  inversion Hnd as [|? ? Hn Hnd']; subst.
  destruct k as [|k]; simpl in Hk |- *.
  - injection Hk as -> ->. rewrite str_eqb_refl, Z.add_0_r. reflexivity.
  - assert (n <> n').
    { intros ->. apply Hn. apply nth_error_In in Hk.
      apply (in_map fst) in Hk; exact Hk. }
    rewrite str_eqb_neq by assumption.
    rewrite (IH Hnd' k (pos + w') Hk). rewrite Z.add_assoc. reflexivity.
Qed.

(** The column of the [k]-th field of the parsed table. *)
Lemma input_text_to_df_column (text : str) (fc : layout) (k : nat) n w :
  NoDup (map fst fc) -> nth_error fc k = Some (n, w) ->
  lookup_col n (input_text_to_df text fc) =
  Some (map (fun l => CStr (field_value l w (sum_widths (firstn k fc)))) (split_nl text)).
Proof.
  intros Hnd Hk. rewrite input_text_to_df_shape by assumption.
  unfold from_dict, parse_cols. rewrite map_map.
  pose proof (lookup_with_cursors fc (split_nl text) k n w 0 Hnd Hk) as H.
  rewrite Z.add_0_l in H. rewrite <- H.
  f_equal. apply map_ext; intros [[a b] c]. rewrite map_map. reflexivity.
Qed.

(** Slicing inside the non-negative range: a (possibly short) prefix of
    the suffix at the cursor. *)
Lemma py_slice_nonneg (s : str) (c w : Z) :
  0 <= c -> 0 <= w ->
  py_slice s c (c + w) = firstn (Z.to_nat w) (skipn (Z.to_nat c) s).
Proof.
  intros Hc Hw. unfold py_slice.
  assert ((c <? 0) = false) as -> by (apply Z.ltb_ge; lia).
  assert ((c + w <? 0) = false) as -> by (apply Z.ltb_ge; lia).
  set (n := Z.of_nat (length s)).
  destruct (Z.le_gt_cases n c) as [Hge|Hlt].
  - rewrite Z.min_r by lia. rewrite (Z.min_r (c + w)) by lia. rewrite Z.ltb_irrefl.
    rewrite skipn_all2 by lia. rewrite firstn_nil. reflexivity.
  - rewrite Z.min_l by lia.
    destruct (Z.ltb_spec c (Z.min (c + w) n)) as [Hab|Hab].
    + destruct (Z.le_gt_cases (c + w) n) as [Hcw|Hcw].
      * rewrite Z.min_l by lia. f_equal. lia.
      * rewrite Z.min_r by lia.
        rewrite firstn_all2 by (rewrite length_skipn; lia).
        rewrite firstn_all2 by (rewrite length_skipn; lia). reflexivity.
    + assert (w = 0) as -> by lia. reflexivity.
Qed.

Lemma py_slice_nil (i j : Z) : py_slice [] i j = [].
Proof.
  unfold py_slice. destruct (_ <? _); [|reflexivity].
  rewrite skipn_nil, firstn_nil; reflexivity.
Qed.

Lemma field_value_nil (w c : Z) : field_value [] w c = [].
Proof. unfold field_value. rewrite py_slice_nil. reflexivity. Qed.

Lemma split_nl_app_newline (a b : str) :
  split_nl (a ++ newline :: b) = split_nl a ++ split_nl b.
Proof.
  induction a as [|c r IH]; simpl.
  - destruct (ascii_dec newline newline); [reflexivity|congruence].
  - destruct (ascii_dec c newline); [rewrite IH; reflexivity|].
    rewrite IH. destruct (split_nl_nonempty r) as [l [ls ->]]. reflexivity.
Qed.

Lemma split_nl_length (s : str) :
  length (split_nl s) = S (count_occ ascii_dec s newline).
Proof.
  induction s as [|c r IH]; simpl; [reflexivity|].
  destruct (ascii_dec c newline) as [->|Hne].
  - simpl. rewrite IH. destruct (ascii_dec newline newline); [reflexivity|congruence].
  - destruct (ascii_dec newline c) as [E|_]; [congruence|].
    destruct (split_nl_nonempty r) as [l [ls E]]. rewrite E in *. simpl in *. exact IH.
Qed.

Lemma split_nl_no_newline (s : str) :
  ~ In newline s -> split_nl s = [s].
Proof.
  induction s as [|c r IH]; simpl; intro H; [reflexivity|].
  destruct (ascii_dec c newline) as [->|Hne]; [exfalso; apply H; auto|].
  rewrite IH by tauto. reflexivity.
Qed.

Lemma columns_input_text_to_df (text : str) (fc : layout) :
  NoDup (map fst fc) -> columns (input_text_to_df text fc) = map fst fc.
Proof.
  intro Hnd. rewrite input_text_to_df_shape by assumption.
  unfold columns, from_dict, parse_cols. rewrite !map_map.
  rewrite <- (with_cursors_names fc 0). apply map_ext; intros [[a b] c]; reflexivity.
Qed.

Lemma in_input_text_to_df (text : str) (fc : layout) n col :
  NoDup (map fst fc) -> In (n, col) (input_text_to_df text fc) ->
  exists w c, col = map (fun l => CStr (field_value l w c)) (split_nl text).
Proof.
  intro Hnd. rewrite input_text_to_df_shape by assumption.
  unfold from_dict, parse_cols. rewrite map_map. intro H.
  apply in_map_iff in H as [[[a w] c] [E _]]. injection E as _ <-.
  exists w, c. rewrite map_map. reflexivity.
Qed.

Lemma lookup_col_in (n : str) (t : table) col :
  lookup_col n t = Some col -> In (n, col) t.
Proof.
  induction t as [|[k c] r IH]; simpl; [discriminate|].
  destruct (str_eqb n k) eqn:E.
  - apply str_eqb_eq in E as ->. intros [= ->]. auto.
  - intro H; right; auto.
Qed.

Lemma nrows_input_text_to_df (text : str) (fc : layout) :
  NoDup (map fst fc) -> fc <> [] ->
  nrows (input_text_to_df text fc) = length (split_nl text).
Proof.
  intros Hnd Hne. rewrite input_text_to_df_shape by assumption.
  destruct fc as [|[n w] r]; [congruence|]. simpl. rewrite !length_map. reflexivity.
Qed.

Lemma lstrip_all_space (s : str) : forallb is_space s = true -> lstrip s = [].
Proof.
  induction s as [|c r IH]; simpl; [reflexivity|].
  intro H; apply andb_true_iff in H as [H1 H2]. rewrite H1. auto.
Qed.

Lemma lstrip_app (s t : str) :
  lstrip (s ++ t) = if forallb is_space s then lstrip t else lstrip s ++ t.
Proof.
  induction s as [|c r IH]; simpl; [reflexivity|].
  destruct (is_space c); simpl; [exact IH|reflexivity].
Qed.

Lemma forallb_is_space_repeat (k : nat) : forallb is_space (repeat space k) = true.
Proof. induction k; simpl; [reflexivity|]. rewrite IHk. reflexivity. Qed.

Lemma repeat_rev_space (k : nat) : rev (repeat space k) = repeat space k.
Proof.
  induction k as [|k IH]; simpl; [reflexivity|]. rewrite IH.
  change [space] with (repeat space 1). rewrite <- repeat_app, Nat.add_comm. reflexivity.
Qed.

Lemma strip_pad_spaces (s : str) (k : nat) : strip (s ++ repeat space k) = strip s.
Proof.
  unfold strip, rstrip. rewrite lstrip_app.
  destruct (forallb is_space s) eqn:E.
  - rewrite (lstrip_all_space (repeat space k)) by apply forallb_is_space_repeat.
    rewrite (lstrip_all_space s) by exact E. reflexivity.
  - rewrite rev_app_distr, lstrip_app, repeat_rev_space, forallb_is_space_repeat.
    reflexivity.
Qed.

Lemma pad_field_length (v : str) (w : Z) : length (pad_field v w) = Z.to_nat w.
Proof.
  unfold pad_field. rewrite length_app, repeat_length, length_firstn. lia.
Qed.

Lemma in_firstn_in {A} (x : A) (k : nat) (l : list A) : In x (firstn k l) -> In x l.
Proof. intro H. rewrite <- (firstn_skipn k l). apply in_or_app; auto. Qed.

Lemma fixed_width_line_no_newline (vals : list str) (fc : layout) :
  Forall (fun v => ~ In newline v) vals -> ~ In newline (fixed_width_line vals fc).
Proof.
  revert fc; induction vals as [|v vs IH]; intros fc Hv; [destruct fc; simpl; tauto|].
  destruct fc as [|[n w] fs]; simpl; [tauto|].
  inversion Hv as [|? ? Hv1 Hvs]; subst.
  intro H; apply in_app_or in H as [H|H].
  - unfold pad_field in H. apply in_app_or in H as [H|H].
    + apply Hv1. eapply in_firstn_in; exact H.
    + apply repeat_spec in H. discriminate.
  - exact (IH fs Hvs H).
Qed.

(** Slicing a line built field by field recovers each field's piece. *)
Lemma slice_fixed_width_line (fc : layout) (vals : list str) (pre : str) :
  Forall (fun f => 0 <= snd f) fc -> length vals = length fc ->
  map (fun '(n, w, c) =>
         (n, [CStr (field_value (pre ++ fixed_width_line vals fc) w c)]))
      (with_cursors fc (Z.of_nat (length pre))) =
  map (fun '(v, (n, w)) => (n, [CStr (strip (firstn (Z.to_nat w) v))])) (combine vals fc).
Proof.
  revert vals pre; induction fc as [|[n w] fs IH]; intros vals pre Hw Hlen;
    destruct vals as [|v vs]; try discriminate; simpl; [reflexivity|].
  inversion Hw as [|? ? Hw1 Hws]; subst. simpl in Hw1.
  f_equal.
  - unfold field_value. rewrite py_slice_nonneg by lia.
    rewrite Nat2Z.id, skipn_app, skipn_all, Nat.sub_diag; simpl.
    rewrite firstn_app, pad_field_length, Nat.sub_diag; simpl.
    rewrite app_nil_r, firstn_all2 by (rewrite pad_field_length; lia).
    unfold pad_field. rewrite strip_pad_spaces. reflexivity.
  - rewrite app_assoc.
    replace (Z.of_nat (length pre) + w) with (Z.of_nat (length (pre ++ pad_field v w))).
    + apply IH; [assumption | simpl in Hlen; lia].
    + rewrite length_app, pad_field_length. lia.
Qed.

(** ** Aggregator lemmas *)

(** [combine_column_values] on row [i] of [t], as a value. *)
Definition combine_value (t : table) (i : nat) (cl : option (list str)) : cell :=
  match row_select t i cl with
  | Ok vs => match join_cells vs with Ok c => c | Raise _ => CNone end
  | Raise _ => CNone
  end.

(** The log entries [combine_column_values] writes for row [i]. *)
Definition combine_errors (t : table) (i : nat) (cl : option (list str)) : list log_entry :=
  match row_select t i cl with
  | Ok vs => match join_cells vs with Ok _ => [] | Raise _ => [LogError (py "exception occurred")] end
  | Raise _ => [LogError (py "exception occurred")]
  end.

Lemma combine_column_values_eq (i : nat) (cl : option (list str)) (s : st) :
  combine_column_values i cl s =
  (mkst (st_df s) (st_log s ++ combine_errors (st_df s) i cl), Ok (combine_value (st_df s) i cl)).
Proof.
  destruct s as [t lg]. unfold combine_column_values, combine_errors, combine_value,
    try_except_else, bind, get_df, lift, log, ret; simpl.
  destruct (row_select t i cl) as [vs|e]; [destruct (join_cells vs)|]; simpl;
    rewrite ?app_nil_r; reflexivity.
Qed.

Lemma mapM_combine (idxs : list nat) (cl : option (list str)) (s : st) :
  mapM (fun i => combine_column_values i cl) idxs s =
  (mkst (st_df s) (st_log s ++ flat_map (fun i => combine_errors (st_df s) i cl) idxs),
   Ok (map (fun i => combine_value (st_df s) i cl) idxs)).
Proof.
  revert s; induction idxs as [|i r IH]; intros [t lg]; simpl.
  - rewrite app_nil_r; reflexivity.
  - unfold bind at 1. rewrite combine_column_values_eq. simpl.
    unfold bind. rewrite IH. simpl. rewrite app_assoc. reflexivity.
Qed.

(** The derived key column and the log entries of [df.apply]. *)
Definition combine_column (t : table) (cl : option (list str)) : list cell :=
  map (fun i => combine_value t i cl) (seq 0 (nrows t)).
Definition combine_log (t : table) (cl : option (list str)) : list log_entry :=
  flat_map (fun i => combine_errors t i cl) (seq 0 (nrows t)).

Lemma apply_combine_eq (cl : option (list str)) (s : st) :
  apply_combine cl s =
  (mkst (st_df s) (st_log s ++ combine_log (st_df s) cl), Ok (combine_column (st_df s) cl)).
Proof. destruct s as [t lg]. unfold apply_combine, bind, get_df. apply mapM_combine. Qed.

(** [calculate_total_transaction] on a DataFrame [t], step by step. *)
Lemma run_calc_by_eq (conv : list cell -> option (list cell)) (t : table) (cl pl : option (list str)) :
  run_calc_by conv t cl pl =
  match lookup_col (py "quantity_long") t with
  | None => (mkst t [err_entry], Ok None)
  | Some ql =>
    match conv ql with
    | None => (mkst t [err_entry], Ok None)
    | Some nl =>
      let t1 := set_col_t (py "quantity_long_sum") nl t in
      match lookup_col (py "quantity_short") t1 with
      | None => (mkst t1 [err_entry], Ok None)
      | Some qs =>
        match conv qs with
        | None => (mkst t1 [err_entry], Ok None)
        | Some ns =>
          let t2 := set_col_t (py "quantity_short_sum") ns t1 in
          let t3 := set_col_t (py "client_info") (combine_column t2 cl) t2 in
          let t4 := set_col_t (py "product_info") (combine_column t3 pl) t3 in
          let lg := combine_log t2 cl ++ combine_log t3 pl in
          match lookup_col (py "product_info") t4, lookup_col (py "client_info") t4,
                lookup_col (py "quantity_long_sum") t4, lookup_col (py "quantity_short_sum") t4 with
          | Some pc, Some cc, Some lc, Some sc =>
              (mkst t4 (lg ++ [ok_entry]), Ok (Some (map add_total (groupby_sum pc cc lc sc))))
          | _, _, _, _ => (mkst t4 (lg ++ [err_entry]), Ok None)
          end
        end
      end
    end
  end.
Proof.
  unfold run_calc_by, calculate_total_transaction_by.
  cbv beta iota zeta delta [try_except_else bind get_col to_numeric_by ret raise set_col log lift st_df st_log].
  destruct (lookup_col (py "quantity_long") t) as [ql|]; [|reflexivity].
  destruct (conv ql) as [nl|]; [|reflexivity].
  destruct (lookup_col (py "quantity_short") _) as [qs|]; [|reflexivity].
  destruct (conv qs) as [ns|]; [|reflexivity].
  rewrite apply_combine_eq. cbv beta iota zeta delta [st_df st_log].
  rewrite apply_combine_eq. cbv beta iota zeta delta [st_df st_log].
  destruct (lookup_col (py "product_info") _); [|reflexivity].
  destruct (lookup_col (py "client_info") _); [|reflexivity].
  destruct (lookup_col (py "quantity_long_sum") _); [|reflexivity].
  destruct (lookup_col (py "quantity_short_sum") _); reflexivity.
Qed.
Lemma run_calc_as_by (t : table) (cl pl : option (list str)) :
  run_calc t cl pl = run_calc_by (map_opt to_numeric_cell) t cl pl.
Proof. reflexivity. Qed.

Lemma run_calc_eq (t : table) (cl pl : option (list str)) :
  run_calc t cl pl =
  match lookup_col (py "quantity_long") t with
  | None => (mkst t [err_entry], Ok None)
  | Some ql =>
    match map_opt to_numeric_cell ql with
    | None => (mkst t [err_entry], Ok None)
    | Some nl =>
      let t1 := set_col_t (py "quantity_long_sum") nl t in
      match lookup_col (py "quantity_short") t1 with
      | None => (mkst t1 [err_entry], Ok None)
      | Some qs =>
        match map_opt to_numeric_cell qs with
        | None => (mkst t1 [err_entry], Ok None)
        | Some ns =>
          let t2 := set_col_t (py "quantity_short_sum") ns t1 in
          let t3 := set_col_t (py "client_info") (combine_column t2 cl) t2 in
          let t4 := set_col_t (py "product_info") (combine_column t3 pl) t3 in
          let lg := combine_log t2 cl ++ combine_log t3 pl in
          match lookup_col (py "product_info") t4, lookup_col (py "client_info") t4,
                lookup_col (py "quantity_long_sum") t4, lookup_col (py "quantity_short_sum") t4 with
          | Some pc, Some cc, Some lc, Some sc =>
              (mkst t4 (lg ++ [ok_entry]), Ok (Some (map add_total (groupby_sum pc cc lc sc))))
          | _, _, _, _ => (mkst t4 (lg ++ [err_entry]), Ok None)
          end
        end
      end
    end
  end.
Proof. rewrite run_calc_as_by. apply run_calc_by_eq. Qed.


Lemma lookup_set_col_same (k : str) (c : list cell) (t : table) :
  lookup_col k (set_col_t k c t) = Some c.
Proof.
  unfold set_col_t. destruct (has_key k t) eqn:H.
  - induction t as [|[k' c'] r IH]; simpl in *; [discriminate|].
    destruct (str_eqb k k') eqn:E; simpl; rewrite E; [reflexivity|].
    apply IH; exact H.
  - induction t as [|[k' c'] r IH]; simpl in *; [rewrite str_eqb_refl; reflexivity|].
    apply orb_false_iff in H as [H1 H2]. rewrite H1. apply IH; exact H2.
Qed.

Lemma lookup_set_col_other (k k' : str) (c : list cell) (t : table) :
  k <> k' -> lookup_col k' (set_col_t k c t) = lookup_col k' t.
Proof.
  intro Hne. unfold set_col_t. destruct (has_key k t).
  - induction t as [|[k0 c0] r IH]; simpl; [reflexivity|].
    destruct (str_eqb k k0) eqn:E; simpl.
    + apply str_eqb_eq in E as <-. rewrite str_eqb_neq by congruence. apply IH.
    + destruct (str_eqb k' k0); [reflexivity|apply IH].
  - induction t as [|[k0 c0] r IH]; simpl; [rewrite str_eqb_neq by congruence; reflexivity|].
    destruct (str_eqb k' k0); [reflexivity|apply IH].
Qed.

(** A DataFrame: every column has one cell per row. *)
Definition rectangular (t : table) : Prop :=
  Forall (fun col => length (snd col) = nrows t) t.

Lemma nrows_set_col (k : str) (c : list cell) (t : table) :
  length c = nrows t -> nrows (set_col_t k c t) = nrows t.
Proof.
  intro H. unfold set_col_t. destruct (has_key k t).
  - destruct t as [|[k0 c0] r]; simpl in *; [reflexivity|].
    destruct (str_eqb k k0); simpl; congruence.
  - destruct t as [|[k0 c0] r]; simpl in *; [congruence|reflexivity].
Qed.

Lemma rectangular_set_col (k : str) (c : list cell) (t : table) :
  rectangular t -> length c = nrows t -> rectangular (set_col_t k c t).
Proof.
  unfold rectangular. intros Hr Hc. rewrite nrows_set_col by assumption.
  unfold set_col_t. destruct (has_key k t).
  - rewrite Forall_map. apply Forall_impl with (2 := Hr).
    intros [k0 c0] H. destruct (str_eqb k k0); simpl in *; congruence.
  - apply Forall_app; split; [exact Hr|]. constructor; [exact Hc|constructor].
Qed.

Lemma lookup_col_length (k : str) (t : table) c :
  rectangular t -> lookup_col k t = Some c -> length c = nrows t.
Proof.
  intros Hr Hk. apply lookup_col_in in Hk. unfold rectangular in Hr.
  rewrite Forall_forall in Hr. exact (Hr _ Hk).
Qed.

Lemma length_map_opt {A B} (f : A -> option B) l l' :
  map_opt f l = Some l' -> length l' = length l.
Proof.
  revert l'; induction l as [|x r IH]; intros l' H; simpl in H.
  - injection H as <-; reflexivity.
  - destruct (f x), (map_opt f r) eqn:E; try discriminate.
    injection H as <-. simpl. f_equal. apply IH; reflexivity.
Qed.

Lemma combine_column_length (t : table) (cl : option (list str)) :
  length (combine_column t cl) = nrows t.
Proof. unfold combine_column. rewrite length_map, length_seq. reflexivity. Qed.

(** *** The groupby accumulator *)

Lemma cell_eqb_eq (a b : cell) : cell_eqb a b = true <-> a = b.
Proof.
  destruct a, b; simpl; split; intro H; try discriminate; try congruence.
  - apply str_eqb_eq in H; congruence.
  - injection H as ->; apply str_eqb_refl.
  - apply Z.eqb_eq in H; congruence.
  - injection H as ->; apply Z.eqb_refl.
Qed.

Lemma key_eqb_eq (a b : key) : key_eqb a b = true <-> a = b.
Proof.
  destruct a as [a1 a2], b as [b1 b2]. unfold key_eqb; simpl.
  rewrite andb_true_iff, !cell_eqb_eq.
  split; [intros [-> ->]; reflexivity | intro H; injection H as -> ->; split; reflexivity].
Qed.

Lemma key_eqb_sym (a b : key) : key_eqb a b = key_eqb b a.
Proof.
  destruct (key_eqb a b) eqn:E, (key_eqb b a) eqn:F; try reflexivity.
  - apply key_eqb_eq in E; subst. rewrite <- F. symmetry; apply key_eqb_eq; reflexivity.
  - apply key_eqb_eq in F; subst. rewrite <- E. apply key_eqb_eq; reflexivity.
Qed.

Definition keep (r : key * (cell * cell)) : bool :=
  negb (is_na (fst (fst r)) || is_na (snd (fst r))).

(** Sum of the selected value over the kept rows with key [k]. *)
Definition grp_sum (sel : cell * cell -> cell) (R : list (key * (cell * cell))) (k : key) : Z :=
  fold_right (fun r acc => (if keep r && key_eqb (fst r) k then num (sel (snd r)) else 0) + acc) 0 R.

Lemma grp_sum_snoc sel R r k :
  grp_sum sel (R ++ [r]) k =
  grp_sum sel R k + (if keep r && key_eqb (fst r) k then num (sel (snd r)) else 0).
Proof.
  unfold grp_sum. rewrite fold_right_app. simpl.
  generalize (if keep r && key_eqb (fst r) k then num (sel (snd r)) else 0) as z. intro z.
  induction R as [|x R IH]; simpl; [lia|]. rewrite IH. lia.
Qed.

Definition acc_has (k : key) (acc : list (key * (Z * Z))) : bool :=
  existsb (fun '(k', _) => key_eqb k k') acc.

Definition acc_inv (acc : list (key * (Z * Z))) (R : list (key * (cell * cell))) : Prop :=
  (forall k a b, In (k, (a, b)) acc -> a = grp_sum fst R k /\ b = grp_sum snd R k) /\
  (forall k, acc_has k acc = false -> grp_sum fst R k = 0 /\ grp_sum snd R k = 0).

Lemma acc_has_in (k : key) v acc : In (k, v) acc -> acc_has k acc = true.
Proof.
  intro H. unfold acc_has. apply existsb_exists. exists (k, v). split; [exact H|].
  apply key_eqb_eq; reflexivity.
Qed.

Lemma acc_has_map_upd (k kr : key) (x y : Z) acc :
  acc_has k (map (fun '(k', (a, b)) => if key_eqb kr k' then (k', (a + x, b + y)) else (k', (a, b))) acc)
  = acc_has k acc.
Proof.
  induction acc as [|[k0 [a0 b0]] r IH]; simpl; [reflexivity|].
  destruct (key_eqb kr k0); simpl; rewrite IH; reflexivity.
Qed.

Lemma acc_has_app (k : key) acc1 acc2 :
  acc_has k (acc1 ++ acc2) = acc_has k acc1 || acc_has k acc2.
Proof. unfold acc_has. apply existsb_app. Qed.

Lemma group_step_inv acc R r :
  acc_inv acc R -> acc_inv (group_step acc r) (R ++ [r]).
Proof.
  intros [Hin Habs]. destruct r as [kr [l s]].
  unfold group_step, acc_inv. setoid_rewrite grp_sum_snoc. unfold keep; simpl.
  destruct (is_na (fst kr) || is_na (snd kr)) eqn:Hna; simpl.
  { split; [intros k a b H; rewrite !Z.add_0_r; auto|intros k H; rewrite !Z.add_0_r; auto]. }
  unfold acc_add. fold (acc_has kr acc).
  destruct (acc_has kr acc) eqn:Hhas.
  - split.
    + intros k a b H. apply in_map_iff in H as [[k0 [a0 b0]] [E Hk0]].
      destruct (Hin _ _ _ Hk0) as [Ha0 Hb0].
      destruct (key_eqb kr k0) eqn:Ek; injection E as Ek0 Ea Eb; subst; rewrite Ek; simpl;
        [split; reflexivity|].
      rewrite !Z.add_0_r; split; reflexivity.
    + intros k H. rewrite acc_has_map_upd in H. destruct (Habs k H) as [-> ->].
      destruct (key_eqb kr k) eqn:Ek; simpl; [|split; reflexivity].
      apply key_eqb_eq in Ek; subst. congruence.
  - split.
    + intros k a b H. apply in_app_or in H as [H|[H|[]]].
      * destruct (Hin _ _ _ H) as [-> ->].
        destruct (key_eqb kr k) eqn:Ek; simpl; [|rewrite !Z.add_0_r; split; reflexivity].
        apply key_eqb_eq in Ek; subst. apply acc_has_in in H. congruence.
      * injection H as <- <- <-. destruct (Habs kr Hhas) as [-> ->].
        assert (key_eqb kr kr = true) as -> by (apply key_eqb_eq; reflexivity).
        simpl; split; reflexivity.
    + intros k H. rewrite acc_has_app in H. apply orb_false_iff in H as [H1 H2].
      destruct (Habs k H1) as [-> ->]. simpl in H2. rewrite orb_false_r in H2.
      rewrite key_eqb_sym, H2. simpl. split; reflexivity.
Qed.

Lemma fold_group_step_inv (R R0 : list (key * (cell * cell))) acc :
  acc_inv acc R0 -> acc_inv (fold_left group_step R acc) (R0 ++ R).
Proof.
  revert R0 acc; induction R as [|r R IH]; intros R0 acc H; simpl.
  - rewrite app_nil_r; exact H.
  - replace (R0 ++ r :: R) with ((R0 ++ [r]) ++ R) by (rewrite <- app_assoc; reflexivity).
    apply IH. apply group_step_inv. exact H.
Qed.

Lemma fold_group_step_keys (R : list (key * (cell * cell))) acc :
  (forall k v, In (k, v) acc -> is_na (fst k) = false /\ is_na (snd k) = false) ->
  forall k v, In (k, v) (fold_left group_step R acc) -> is_na (fst k) = false /\ is_na (snd k) = false.
Proof.
  revert acc; induction R as [|[kr [l s]] R IH]; intros acc Hacc; simpl; [exact Hacc|].
  apply IH. unfold group_step.
  destruct (is_na (fst kr) || is_na (snd kr)) eqn:Hna; [exact Hacc|].
  apply orb_false_iff in Hna as [Hna1 Hna2].
  unfold acc_add. fold (acc_has kr acc). destruct (acc_has kr acc).
  - intros k v H. apply in_map_iff in H as [[k0 [a0 b0]] [E Hk0]].
    destruct (key_eqb kr k0); injection E as -> <-; exact (Hacc _ _ Hk0).
  - intros k v H. apply in_app_or in H as [H|[H|[]]]; [exact (Hacc _ _ H)|].
    injection H as -> <-. split; assumption.
Qed.

Lemma in_insert_group g x l : In x (insert_group g l) <-> g = x \/ In x l.
Proof.
  induction l as [|h r IH]; simpl; [tauto|].
  destruct (key_ltb (fst g) (fst h)); simpl; [tauto|]. rewrite IH. tauto.
Qed.

Lemma in_sort_groups x l : In x (sort_groups l) <-> In x l.
Proof.
  induction l as [|h r IH]; simpl; [tauto|]. rewrite in_insert_group, IH. tauto.
Qed.

(** Every group of [groupby_sum] holds the sums of the kept rows with its key,
    and its key holds no None or NaN. *)
Lemma groupby_sum_spec pc cc lc sc k a b :
  In (k, (a, b)) (groupby_sum pc cc lc sc) ->
  a = grp_sum fst (group_rows pc cc lc sc) k /\ b = grp_sum snd (group_rows pc cc lc sc) k /\
  is_na (fst k) = false /\ is_na (snd k) = false.
Proof.
  unfold groupby_sum. rewrite in_sort_groups. intro H.
  assert (Hinv : acc_inv [] []).
  { split; [intros ? ? ? []|intros; split; reflexivity]. }
  destruct (fold_group_step_inv (group_rows pc cc lc sc) [] [] Hinv) as [Hin _].
  destruct (Hin _ _ _ H) as [-> ->].
  apply fold_group_step_keys in H; [|intros ? ? []]. tauto.
Qed.

(** Sum of a numeric column over exactly the row positions [i] whose
    derived key [(pc[i], cc[i])] equals [k]. *)
Definition key_sum (pc cc vals : list cell) (k : key) : Z :=
  fold_right (fun i acc =>
                (if key_eqb (nth i pc CNone, nth i cc CNone) k then num (nth i vals CNone) else 0) + acc)
             0 (seq 0 (length pc)).

Lemma fold_right_seq_shift (f : nat -> Z) (n : nat) :
  fold_right (fun i acc => f i + acc) 0 (seq 1 n) =
  fold_right (fun i acc => f (S i) + acc) 0 (seq 0 n).
Proof.
  rewrite <- seq_shift. induction (seq 0 n) as [|x r IH]; simpl; [reflexivity|]. rewrite IH. reflexivity.
Qed.

Lemma grp_sum_key_sum pc cc lc sc k :
  length cc = length pc -> length lc = length pc -> length sc = length pc ->
  is_na (fst k) = false -> is_na (snd k) = false ->
  grp_sum fst (group_rows pc cc lc sc) k = key_sum pc cc lc k /\
  grp_sum snd (group_rows pc cc lc sc) k = key_sum pc cc sc k.
Proof.
  intros Hc Hl Hs Hk1 Hk2. revert cc lc sc Hc Hl Hs.
  induction pc as [|p pc IH]; intros cc lc sc Hc Hl Hs;
    destruct cc as [|c cc]; destruct lc as [|l lc]; destruct sc as [|s sc];
    try discriminate; [split; reflexivity|].
  simpl in Hc, Hl, Hs. destruct (IH cc lc sc) as [IH1 IH2]; try lia.
  unfold key_sum in *.
  change (seq 0 (length (p :: pc))) with (0%nat :: seq 1 (length pc)).
  cbn [fold_right].
  rewrite (fold_right_seq_shift (fun i => if key_eqb (nth i (p :: pc) CNone, nth i (c :: cc) CNone) k
                                          then num (nth i (l :: lc) CNone) else 0)).
  rewrite (fold_right_seq_shift (fun i => if key_eqb (nth i (p :: pc) CNone, nth i (c :: cc) CNone) k
                                          then num (nth i (s :: sc) CNone) else 0)).
  cbn [nth].
  unfold grp_sum in *. cbn [group_rows combine fold_right fst snd] in *.
  unfold group_rows in IH1, IH2. rewrite IH1, IH2.
  destruct (key_eqb (p, c) k) eqn:E.
  - apply key_eqb_eq in E. subst k. unfold keep; simpl in *. rewrite Hk1, Hk2. simpl.
    split; reflexivity.
  - rewrite andb_false_r. split; reflexivity.
Qed.

(** *** The successful path of the aggregator *)

Definition calc_t2 (t : table) (nl ns : list cell) : table :=
  set_col_t (py "quantity_short_sum") ns (set_col_t (py "quantity_long_sum") nl t).
Definition calc_t3 (t2 : table) (cl : option (list str)) : table :=
  set_col_t (py "client_info") (combine_column t2 cl) t2.
Definition calc_t4 (t3 : table) (pl : option (list str)) : table :=
  set_col_t (py "product_info") (combine_column t3 pl) t3.

Ltac names_differ := let H := fresh in intro H; discriminate H.

Lemma run_calc_success (t : table) (cl pl : option (list str)) (s : st) (gs : list summary) :
  run_calc t cl pl = (s, Ok (Some gs)) ->
  exists ql nl qs ns,
    lookup_col (py "quantity_long") t = Some ql /\ map_opt to_numeric_cell ql = Some nl /\
    lookup_col (py "quantity_short") t = Some qs /\ map_opt to_numeric_cell qs = Some ns /\
    st_df s = calc_t4 (calc_t3 (calc_t2 t nl ns) cl) pl /\
    st_log s = combine_log (calc_t2 t nl ns) cl ++
               combine_log (calc_t3 (calc_t2 t nl ns) cl) pl ++ [ok_entry] /\
    gs = map add_total (groupby_sum (combine_column (calc_t3 (calc_t2 t nl ns) cl) pl)
                                    (combine_column (calc_t2 t nl ns) cl) nl ns).
Proof.
  rewrite run_calc_eq. intro H. cbv zeta in H.
  destruct (lookup_col (py "quantity_long") t) as [ql|] eqn:Eql; [|discriminate].
  destruct (map_opt to_numeric_cell ql) as [nl|] eqn:Enl; [|discriminate].
  rewrite lookup_set_col_other in H by names_differ.
  destruct (lookup_col (py "quantity_short") t) as [qs|] eqn:Eqs; [|discriminate].
  destruct (map_opt to_numeric_cell qs) as [ns|] eqn:Ens; [|discriminate].
  rewrite lookup_set_col_same in H.
  rewrite (lookup_set_col_other (py "product_info") (py "client_info")) in H by names_differ.
  rewrite lookup_set_col_same in H.
  rewrite (lookup_set_col_other (py "product_info") (py "quantity_long_sum")) in H by names_differ.
  rewrite (lookup_set_col_other (py "client_info") (py "quantity_long_sum")) in H by names_differ.
  rewrite (lookup_set_col_other (py "quantity_short_sum") (py "quantity_long_sum")) in H by names_differ.
  rewrite lookup_set_col_same in H.
  rewrite (lookup_set_col_other (py "product_info") (py "quantity_short_sum")) in H by names_differ.
  rewrite (lookup_set_col_other (py "client_info") (py "quantity_short_sum")) in H by names_differ.
  rewrite lookup_set_col_same in H.
  injection H as <- <-.
  exists ql, nl, qs, ns. repeat split; try assumption; try reflexivity.
  simpl. rewrite <- app_assoc. reflexivity.
Qed.

Lemma rectangular_calc_tables (t : table) (cl pl : option (list str)) ql nl qs ns :
  rectangular t ->
  lookup_col (py "quantity_long") t = Some ql -> map_opt to_numeric_cell ql = Some nl ->
  lookup_col (py "quantity_short") t = Some qs -> map_opt to_numeric_cell qs = Some ns ->
  rectangular (calc_t2 t nl ns) /\ nrows (calc_t2 t nl ns) = nrows t /\
  rectangular (calc_t3 (calc_t2 t nl ns) cl) /\ nrows (calc_t3 (calc_t2 t nl ns) cl) = nrows t /\
  rectangular (calc_t4 (calc_t3 (calc_t2 t nl ns) cl) pl) /\
  nrows (calc_t4 (calc_t3 (calc_t2 t nl ns) cl) pl) = nrows t /\
  length nl = nrows t /\ length ns = nrows t.
Proof.
  intros Hr Eql Enl Eqs Ens.
  assert (Hnl : length nl = nrows t).
  { rewrite (length_map_opt _ _ _ Enl). exact (lookup_col_length _ _ _ Hr Eql). }
  assert (Hns : length ns = nrows t).
  { rewrite (length_map_opt _ _ _ Ens). exact (lookup_col_length _ _ _ Hr Eqs). }
  assert (H1 : rectangular (set_col_t (py "quantity_long_sum") nl t)) by
    (apply rectangular_set_col; assumption).
  assert (N1 : nrows (set_col_t (py "quantity_long_sum") nl t) = nrows t) by
    (apply nrows_set_col; assumption).
  assert (H2 : rectangular (calc_t2 t nl ns)) by
    (apply rectangular_set_col; [assumption|congruence]).
  assert (N2 : nrows (calc_t2 t nl ns) = nrows t) by
    (unfold calc_t2; rewrite nrows_set_col; congruence).
  assert (H3 : rectangular (calc_t3 (calc_t2 t nl ns) cl)) by
    (apply rectangular_set_col; [assumption|apply combine_column_length]).
  assert (N3 : nrows (calc_t3 (calc_t2 t nl ns) cl) = nrows t) by
    (unfold calc_t3; rewrite nrows_set_col by apply combine_column_length; assumption).
  assert (H4 : rectangular (calc_t4 (calc_t3 (calc_t2 t nl ns) cl) pl)) by
    (apply rectangular_set_col; [assumption|apply combine_column_length]).
  assert (N4 : nrows (calc_t4 (calc_t3 (calc_t2 t nl ns) cl) pl) = nrows t) by
    (unfold calc_t4; rewrite nrows_set_col by apply combine_column_length; assumption).
  tauto.
Qed.


Lemma binary64_integer_odd (z : Z) : Z.odd z = true -> 2 ^ 53 <= Z.abs z -> ~ binary64_integer z.
Proof.
  intros Ho Hz [m [e [He [Hm ->]]]]. destruct (Z.eq_dec e 0) as [->|Hne].
  - rewrite Z.pow_0_r, Z.mul_1_r in Hz. lia.
  - rewrite Z.odd_mul, Z.odd_pow in Ho by lia. rewrite andb_false_r in Ho. discriminate.
Qed.



















(** * Properties of the fixed-width parser *)

(** The layout of the spec's scenario. *)
Definition scenario_layout : layout :=
  [(py "client", 4); (py "product", 4); (py "quantity_long", 6); (py "quantity_short", 6)].

(** C4 (counterexample): parsing the empty string does not give zero rows:
    ["".split("\n")] is [[""]], so one row of empty strings is produced. *)
Lemma C4_empty_text_has_one_row :
  nrows (input_text_to_df [] [(py "client", 4)]) = 1%nat /\
  nrows (input_text_to_df [] [(py "client", 4)]) <> 0%nat.
Proof. vm_compute. split; [reflexivity | discriminate]. Qed.

(** C4 (amended): for every layout with distinct field names, parsing the
    empty string yields exactly the layout's columns, in order, each holding
    one empty string (so one row when the layout is non-empty). *)
Theorem C4_empty_text_one_empty_row (fc : layout) :
  NoDup (map fst fc) ->
  input_text_to_df [] fc = map (fun f => (fst f, [CStr []])) fc.
Proof.
  intro Hnd. rewrite input_text_to_df_shape by assumption. simpl.
  unfold from_dict, parse_cols. rewrite map_map.
  generalize 0. induction fc as [|[n w] r IH]; intro pos; simpl; [reflexivity|].
  rewrite field_value_nil. f_equal. apply IH. inversion Hnd; assumption.
Qed.

Lemma C4_empty_text_one_empty_row_witness :
  NoDup (map fst scenario_layout) /\
  input_text_to_df [] scenario_layout = map (fun f => (fst f, [CStr []])) scenario_layout.
Proof.
  assert (H : NoDup (map fst scenario_layout)).
  { vm_compute. repeat constructor; simpl; intuition discriminate. }
  split; [exact H | apply (C4_empty_text_one_empty_row scenario_layout H)].
Defined.

(** C6: for a layout with distinct names and at least one field, a text
    with [k] newline characters ([k + 1] newline-delimited lines) parses to
    exactly [k + 1] rows, every field has a column, and when the text ends
    with a newline the last row holds the empty string in every column. *)
Theorem C6_one_row_per_line (text : str) (fc : layout) :
  NoDup (map fst fc) -> fc <> [] ->
  columns (input_text_to_df text fc) = map fst fc /\
  nrows (input_text_to_df text fc) = S (count_occ ascii_dec text newline) /\
  (forall pre, text = pre ++ [newline] ->
   forall n col, lookup_col n (input_text_to_df text fc) = Some col ->
   length col = S (count_occ ascii_dec text newline) /\ last col CNone = CStr []).
Proof.
  intros Hnd Hne. split; [apply columns_input_text_to_df; assumption|].
  split; [rewrite nrows_input_text_to_df, split_nl_length by assumption; reflexivity|].
  intros pre Hpre n col Hcol.
  apply lookup_col_in in Hcol. apply in_input_text_to_df in Hcol as [w [c ->]]; [|assumption].
  rewrite length_map, split_nl_length. split; [reflexivity|].
  rewrite Hpre, split_nl_app_newline. simpl. rewrite map_app. simpl.
  rewrite last_last, field_value_nil. reflexivity.
Qed.

Lemma scenario_layout_nodup : NoDup (map fst scenario_layout).
Proof. vm_compute. repeat constructor; simpl; intuition discriminate. Qed.

Definition scenario_text : str := py "C001P001   100    50" ++ [newline].

Lemma C6_one_row_per_line_witness :
  NoDup (map fst scenario_layout) /\ scenario_layout <> [] /\
  nrows (input_text_to_df scenario_text scenario_layout) = 2%nat.
Proof.
  assert (Hne : scenario_layout <> []) by discriminate.
  split; [exact scenario_layout_nodup|]. split; [exact Hne|].
  destruct (C6_one_row_per_line scenario_text scenario_layout scenario_layout_nodup Hne)
    as [_ [H _]].
  rewrite H. vm_compute. reflexivity.
Defined.

(** C7 (counterexample): a value holding a newline breaks the line in two
    when the text is split, so the trimmed value ["x"] of ["\nx"] is not
    recovered: the field's column holds [""] and ["xy"]. *)
Lemma C7_newline_value_not_recovered :
  let fc := [(py "a", 2); (py "b", 2)] in
  let vals := [newline :: py "x"; py "yy"] in
  lookup_col (py "a") (input_text_to_df (fixed_width_line vals fc) fc) =
    Some [CStr []; CStr (py "xy")] /\
  strip (newline :: py "x") = py "x".
Proof. vm_compute. split; reflexivity. Qed.

(** C7 (amended): for a layout with distinct names and non-negative widths,
    and one value per field none of which contains a newline, parsing the
    line built by padding each value with spaces (or truncating it) to its
    width gives one row whose value for each field is the trimmed value as
    written into the line, i.e. of its first [width] characters (the
    trimmed value itself when it fits its width). *)
Theorem C7_roundtrip_without_newlines (fc : layout) (vals : list str) :
  NoDup (map fst fc) -> Forall (fun f => 0 <= snd f) fc -> length vals = length fc ->
  Forall (fun v => ~ In newline v) vals ->
  input_text_to_df (fixed_width_line vals fc) fc =
  map (fun '(v, (n, w)) => (n, [CStr (strip (firstn (Z.to_nat w) v))])) (combine vals fc).
Proof.
  intros Hnd Hw Hlen Hv. rewrite input_text_to_df_shape by assumption.
  rewrite split_nl_no_newline by (apply fixed_width_line_no_newline; assumption).
  unfold from_dict, parse_cols. rewrite map_map.
  rewrite <- (slice_fixed_width_line fc vals [] Hw Hlen). simpl.
  apply map_ext; intros [[n w] c]. reflexivity.
Qed.

Lemma C7_roundtrip_without_newlines_witness :
  input_text_to_df (fixed_width_line [py "C001"; py "P001"; py "100"; py "50"] scenario_layout)
                   scenario_layout =
  [(py "client", [CStr (py "C001")]); (py "product", [CStr (py "P001")]);
   (py "quantity_long", [CStr (py "100")]); (py "quantity_short", [CStr (py "50")])].
Proof.
  rewrite (C7_roundtrip_without_newlines scenario_layout [py "C001"; py "P001"; py "100"; py "50"]
             scenario_layout_nodup).
  - vm_compute. reflexivity.
  - repeat constructor; simpl; lia.
  - reflexivity.
  - repeat constructor; vm_compute; intuition discriminate.
Defined.

(** C9: slicing never fails.  For a layout with distinct names and
    non-negative widths, the [k]-th field of every line is the trimmed
    [firstn w (skipn c line)], where the cursor [c] is the sum of the full
    configured widths of the fields before it: characters past the end of
    the line are simply missing (a short or empty value). *)
Theorem C9_slice_past_end_is_short (text : str) (fc : layout) (k : nat) (n : str) (w : Z) :
  NoDup (map fst fc) -> Forall (fun f => 0 <= snd f) fc -> nth_error fc k = Some (n, w) ->
  lookup_col n (input_text_to_df text fc) =
  Some (map (fun line =>
               CStr (strip (firstn (Z.to_nat w)
                              (skipn (Z.to_nat (sum_widths (firstn k fc))) line))))
            (split_nl text)).
Proof.
  intros Hnd Hw Hk. rewrite (input_text_to_df_column text fc k n w Hnd Hk).
  assert (Hpre : Forall (fun f => 0 <= snd f) (firstn k fc)).
  { rewrite <- (firstn_skipn k fc) in Hw. apply Forall_app in Hw. tauto. }
  assert (Hc : 0 <= sum_widths (firstn k fc)).
  { clear -Hpre. induction Hpre; simpl; lia. }
  assert (Hw0 : 0 <= w).
  { apply nth_error_In in Hk. rewrite Forall_forall in Hw. exact (Hw _ Hk). }
  f_equal. apply map_ext; intro line. unfold field_value.
  rewrite py_slice_nonneg by assumption. reflexivity.
Qed.

Lemma C9_slice_past_end_is_short_witness :
  lookup_col (py "quantity_short") (input_text_to_df (py "C001P001   1") scenario_layout) =
  Some [CStr []].
Proof.
  rewrite (C9_slice_past_end_is_short (py "C001P001   1") scenario_layout 3
             (py "quantity_short") 6 scenario_layout_nodup).
  - vm_compute. reflexivity.
  - repeat constructor; simpl; lia.
  - reflexivity.
Defined.

(** * Properties of the aggregator *)

(** C5 (counterexample): two rows of one group with [quantity_long] values
    2^63 - 1 and 2, both int64 literals and no empty value, so [to_numeric]
    gives an int64 column.  The group sum the claim requires, 2^63 + 1 (the
    model's exact sum), is neither an int64 value nor a float64 value, so the
    [quantity_long_sum] and [total_transaction_amount] pandas emits differ
    from it (int64 sums wrap around, float64 sums round). *)
Lemma C5_int64_group_sum_overflows :
  lookup_col (py "quantity_long") overflow_df =
    Some [CStr (py "9223372036854775807"); CStr (py "2")] /\
  lookup_col (py "quantity_short") overflow_df = Some [CStr (py "0"); CStr (py "0")] /\
  forallb int64_literal [CStr (py "9223372036854775807"); CStr (py "2"); CStr (py "0")] = true /\
  snd (run_calc overflow_df (Some [py "client"]) (Some [py "product"])) =
    Ok (Some [mksummary (CStr (py "P001")) (CStr (py "C001")) (2 ^ 63 + 1) 0 (2 ^ 63 + 1)]) /\
  in_int64 (2 ^ 63 + 1) = false /\ ~ binary64_integer (2 ^ 63 + 1).
Proof.
  split; [vm_compute; reflexivity|]. split; [vm_compute; reflexivity|].
  split; [vm_compute; reflexivity|]. split; [vm_compute; reflexivity|].
  split; [vm_compute; reflexivity|].
  apply binary64_integer_odd; [reflexivity | rewrite Z.abs_eq; lia].
Qed.

(** C5 (amended): on success, every emitted group's [quantity_long_sum],
    [quantity_short_sum] and [total_transaction_amount] are the sum of the
    numeric [quantity_long] values, the sum of the numeric [quantity_short]
    values and their difference, over exactly the rows whose derived
    [(product_info, client_info)] pair equals the group's key pair (NaN
    counts as 0, as pandas' [sum] skips it).  The quantities are plain
    integers whose absolute values add up to at most 2^53: then every partial
    sum and difference pandas computes, in int64 or in float64, is exact, as
    the model's integers are. *)
Theorem C5_group_total_is_sum_difference (t : table) (cl pl : option (list str))
        (s : st) (gs : list summary) (ql qs : list cell) :
  rectangular t ->
  lookup_col (py "quantity_long") t = Some ql -> forallb plain_quantity ql = true ->
  lookup_col (py "quantity_short") t = Some qs -> forallb plain_quantity qs = true ->
  sumZ quantity_magnitude ql + sumZ quantity_magnitude qs <= 2 ^ 53 ->
  run_calc t cl pl = (s, Ok (Some gs)) ->
  exists nl ns pc cc,
    map_opt to_numeric_cell ql = Some nl /\ map_opt to_numeric_cell qs = Some ns /\
    lookup_col (py "product_info") (st_df s) = Some pc /\
    lookup_col (py "client_info") (st_df s) = Some cc /\
    length pc = nrows t /\
    forall g, In g gs ->
      quantity_long_sum g = key_sum pc cc nl (product_info g, client_info g) /\
      quantity_short_sum g = key_sum pc cc ns (product_info g, client_info g) /\
      total_transaction_amount g =
        key_sum pc cc nl (product_info g, client_info g) -
        key_sum pc cc ns (product_info g, client_info g).
Proof.
  intros Hr Eql0 _ Eqs0 _ _ Hrun.
  destruct (run_calc_success t cl pl s gs Hrun)
    as [ql' [nl [qs' [ns [Eql [Enl [Eqs [Ens [Edf [_ Egs]]]]]]]]]].
  rewrite Eql in Eql0. injection Eql0 as ->. rewrite Eqs in Eqs0. injection Eqs0 as ->.
  destruct (rectangular_calc_tables t cl pl ql nl qs ns Hr Eql Enl Eqs Ens)
    as [_ [N2 [_ [N3 [_ [_ [Hnl Hns]]]]]]].
  set (t2 := calc_t2 t nl ns) in *. set (t3 := calc_t3 t2 cl) in *.
  exists nl, ns, (combine_column t3 pl), (combine_column t2 cl).
  rewrite Edf. unfold calc_t4.
  rewrite lookup_set_col_same.
  rewrite lookup_set_col_other by names_differ. unfold t3, calc_t3. rewrite lookup_set_col_same.
  fold (calc_t3 t2 cl). fold t3.
  do 5 (split; [assumption || reflexivity || (rewrite combine_column_length; congruence)|]).
  intros g Hg. rewrite Egs in Hg. apply in_map_iff in Hg as [[[p c] [a b]] [<- Hin]].
  apply groupby_sum_spec in Hin as [-> [-> [Hk1 Hk2]]].
  destruct (grp_sum_key_sum (combine_column t3 pl) (combine_column t2 cl) nl ns (p, c))
    as [E1 E2]; rewrite ?combine_column_length; try congruence; try assumption.
  simpl. rewrite E1, E2. repeat split; reflexivity.
Qed.

(** The spec's scenario as a one-row table. *)
Definition scenario_df : table := input_text_to_df (py "C001P001   100    50") scenario_layout.

Lemma scenario_df_rectangular : rectangular scenario_df.
Proof. vm_compute. repeat constructor. Qed.

Lemma C5_group_total_is_sum_difference_witness :
  run_calc scenario_df (Some [py "client"]) (Some [py "product"]) =
    (fst (run_calc scenario_df (Some [py "client"]) (Some [py "product"])),
     Ok (Some [mksummary (CStr (py "P001")) (CStr (py "C001")) 100 50 50])) /\
  exists nl ns pc cc,
    map_opt to_numeric_cell [CStr (py "100")] = Some nl /\
    map_opt to_numeric_cell [CStr (py "50")] = Some ns /\
    lookup_col (py "product_info")
      (st_df (fst (run_calc scenario_df (Some [py "client"]) (Some [py "product"])))) = Some pc /\
    lookup_col (py "client_info")
      (st_df (fst (run_calc scenario_df (Some [py "client"]) (Some [py "product"])))) = Some cc /\
    length pc = nrows scenario_df /\
    forall g, In g [mksummary (CStr (py "P001")) (CStr (py "C001")) 100 50 50] ->
      quantity_long_sum g = key_sum pc cc nl (product_info g, client_info g) /\
      quantity_short_sum g = key_sum pc cc ns (product_info g, client_info g) /\
      total_transaction_amount g =
        key_sum pc cc nl (product_info g, client_info g) -
        key_sum pc cc ns (product_info g, client_info g).
Proof.
  assert (E : run_calc scenario_df (Some [py "client"]) (Some [py "product"]) =
    (fst (run_calc scenario_df (Some [py "client"]) (Some [py "product"])),
     Ok (Some [mksummary (CStr (py "P001")) (CStr (py "C001")) 100 50 50])))
    by (vm_compute; reflexivity).
  split; [exact E|].
  apply (C5_group_total_is_sum_difference scenario_df (Some [py "client"]) (Some [py "product"])
           _ _ [CStr (py "100")] [CStr (py "50")]).
  - exact scenario_df_rectangular.
  - vm_compute. reflexivity.
  - reflexivity.
  - vm_compute. reflexivity.
  - reflexivity.
  - vm_compute. discriminate.
  - exact E.
Defined.

(** The scenario line with an unparsable [quantity_long]. *)
Definition invalid_df : table := input_text_to_df (py "C001P001   abc    50") scenario_layout.

(** C2 (counterexample): an unparsable quantity does not make the call fail:
    the exception is caught, logged, and the call returns None normally. *)
Lemma C2_invalid_quantity_does_not_raise :
  snd (run_calc invalid_df (Some [py "client"]) (Some [py "product"])) = Ok None /\
  (forall e, snd (run_calc invalid_df (Some [py "client"]) (Some [py "product"])) <> Raise e) /\
  st_log (fst (run_calc invalid_df (Some [py "client"]) (Some [py "product"]))) = [err_entry].
Proof. vm_compute. split; [reflexivity|split; [discriminate|reflexivity]]. Qed.

(** C2 (amended): when the conversion of the [quantity_long] or
    [quantity_short] column raises (as [to_numeric] does on a value it cannot
    parse as a number), the call raises nothing: it logs one error and
    returns None, so no grouped record at all is produced (no value is
    coerced to zero).  The conversion [conv] is any function, so the
    statement holds whatever text pandas accepts. *)
Theorem C2_invalid_quantity_returns_none (conv : list cell -> option (list cell))
        (t : table) (cl pl : option (list str)) (k : str) (col : list cell) :
  (k = py "quantity_long" \/ k = py "quantity_short") ->
  lookup_col k t = Some col -> conv col = None ->
  snd (run_calc_by conv t cl pl) = Ok None /\ st_log (fst (run_calc_by conv t cl pl)) = [err_entry].
Proof.
  intros Hk Hcol Hc. rewrite run_calc_by_eq. cbv zeta.
  destruct (lookup_col (py "quantity_long") t) as [ql|] eqn:Eql; [|split; reflexivity].
  destruct (conv ql) as [nl|] eqn:Enl; [|split; reflexivity].
  destruct Hk as [->| ->].
  - rewrite Eql in Hcol. injection Hcol as <-. congruence.
  - rewrite lookup_set_col_other by names_differ. rewrite Hcol, Hc. split; reflexivity.
Qed.

Lemma C2_invalid_quantity_returns_none_witness :
  snd (run_calc invalid_df (Some [py "client"]) (Some [py "product"])) = Ok None /\
  st_log (fst (run_calc invalid_df (Some [py "client"]) (Some [py "product"]))) = [err_entry].
Proof.
  rewrite run_calc_as_by.
  apply (C2_invalid_quantity_returns_none (map_opt to_numeric_cell) invalid_df _ _
           (py "quantity_long") [CStr (py "abc")]).
  - left; reflexivity.
  - vm_compute. reflexivity.
  - reflexivity.
Defined.












(** * Properties of the end-to-end pipeline *)

(** A configuration whose client and product grouping-field lists differ. *)
Definition split_keys_cfg : config :=
  mkconfig (Some (py "input.txt")) (Some scenario_layout)
           (Some [py "client"]) (Some [py "product"]) (Some (py "output.csv")).

Definition split_keys_input (_ : str) : option str := Some (py "C001P001   100    50").

(** C1 (divergence): with a client list [["client"]] and a different product
    list [["product"]], [main] derives [product_info] from the client list
    (it reads [group_by_client_info_columns] twice): the product key is
    ["C001"], equal to the client key, and the output group is keyed
    [("C001", "C001")].  Deriving it from the product list, as the
    aggregator does when given that list, gives ["P001"]. *)
Theorem C1_product_key_read_from_client_list :
  cfg_group_by_client_info_columns split_keys_cfg <>
    cfg_group_by_product_info_columns split_keys_cfg /\
  (exists df lg,
     main_run split_keys_cfg split_keys_input =
       Ok (Some (df, lg, Some [mksummary (CStr (py "C001")) (CStr (py "C001")) 100 50 50])) /\
     lookup_col (py "product_info") df = Some [CStr (py "C001")] /\
     lookup_col (py "client_info") df = Some [CStr (py "C001")]) /\
  lookup_col (py "product_info")
    (st_df (fst (run_calc (input_text_to_df (py "C001P001   100    50") scenario_layout)
                          (Some [py "client"]) (Some [py "product"])))) =
    Some [CStr (py "P001")].
Proof.
  split; [discriminate|]. split; [|vm_compute; reflexivity].
  eexists; eexists. vm_compute. split; [reflexivity|split; reflexivity].
Qed.

(** * Further properties of the script *)

(** ** The aggregator *)

Lemma acc_has_true_iff (k : key) acc : acc_has k acc = true <-> In k (map fst acc).
Proof.
  unfold acc_has. rewrite existsb_exists. split.
  - intros [[k' v] [H E]]. apply key_eqb_eq in E; subst. apply (in_map fst) in H. exact H.
  - intro H. apply in_map_iff in H as [[k' v] [E H]]. simpl in E. rewrite <- E.
    exists (k', v). split; [exact H|apply key_eqb_eq; reflexivity].
Qed.

Lemma acc_has_false_iff (k : key) acc : acc_has k acc = false <-> ~ In k (map fst acc).
Proof.
  rewrite <- acc_has_true_iff. destruct (acc_has k acc); split; congruence || tauto.
Qed.

Lemma map_fst_upd (kr : key) (x y : Z) acc :
  map fst (map (fun '(k', (a, b)) => if key_eqb kr k' then (k', (a + x, b + y)) else (k', (a, b))) acc)
  = map fst acc.
Proof.
  induction acc as [|[k0 [a0 b0]] r IH]; simpl; [reflexivity|].
  destruct (key_eqb kr k0); simpl; rewrite IH; reflexivity.
Qed.

Lemma group_step_keys acc r :
  map fst (group_step acc r) =
  if keep r && negb (acc_has (fst r) acc) then map fst acc ++ [fst r] else map fst acc.
Proof.
  destruct r as [kr [l s]]. unfold group_step, keep; simpl.
  destruct (is_na (fst kr) || is_na (snd kr)); simpl; [reflexivity|].
  unfold acc_add. fold (acc_has kr acc). destruct (acc_has kr acc); simpl.
  - apply map_fst_upd.
  - rewrite map_app. reflexivity.
Qed.

Lemma group_step_nodup acc r : NoDup (map fst acc) -> NoDup (map fst (group_step acc r)).
Proof.
  intro H. rewrite group_step_keys.
  destruct (keep r && negb (acc_has (fst r) acc)) eqn:E; [|exact H].
  apply andb_true_iff in E as [_ E]. apply negb_true_iff, acc_has_false_iff in E.
  apply NoDup_app; [exact H| repeat constructor; simpl; tauto |].
  intros x Hx [<-|[]]. contradiction.
Qed.






(** Sums over the accumulator. *)
Lemma sum_upd_fst (kr : key) (x y : Z) acc :
  NoDup (map fst acc) ->
  sumZ (fun g => fst (snd g))
    (map (fun '(k', (a, b)) => if key_eqb kr k' then (k', (a + x, b + y)) else (k', (a, b))) acc)
  = sumZ (fun g => fst (snd g)) acc + (if acc_has kr acc then x else 0) /\
  sumZ (fun g => snd (snd g))
    (map (fun '(k', (a, b)) => if key_eqb kr k' then (k', (a + x, b + y)) else (k', (a, b))) acc)
  = sumZ (fun g => snd (snd g)) acc + (if acc_has kr acc then y else 0).
Proof.
  induction acc as [|[k0 [a0 b0]] r IH]; simpl; intro Hnd; [lia|].
  inversion Hnd as [|? ? Hn Hnd']; subst.
  destruct IH as [IH1 IH2]; [exact Hnd'|].
  unfold sumZ in *. simpl.
  destruct (key_eqb kr k0) eqn:E; simpl.
  - apply key_eqb_eq in E; subst.
    assert (acc_has k0 r = false) as Hf by (apply acc_has_false_iff; exact Hn).
    rewrite Hf in IH1, IH2. rewrite IH1, IH2. split; lia.
  - rewrite IH1, IH2. split; lia.
Qed.

Definition row_long (r : key * (cell * cell)) : Z := if keep r then num (fst (snd r)) else 0.

Definition row_short (r : key * (cell * cell)) : Z := if keep r then num (snd (snd r)) else 0.

Lemma group_step_sum acc r :
  NoDup (map fst acc) ->
  sumZ (fun g => fst (snd g)) (group_step acc r) = sumZ (fun g => fst (snd g)) acc + row_long r /\
  sumZ (fun g => snd (snd g)) (group_step acc r) = sumZ (fun g => snd (snd g)) acc + row_short r.
Proof.
  intro Hnd. destruct r as [kr [l s]]. unfold group_step, row_long, row_short, keep; simpl.
  destruct (is_na (fst kr) || is_na (snd kr)); simpl; [split; lia|].
  unfold acc_add. fold (acc_has kr acc). destruct (acc_has kr acc) eqn:E.
  - destruct (sum_upd_fst kr (num l) (num s) acc Hnd) as [H1 H2]. rewrite E in H1, H2.
    split; assumption.
  - unfold sumZ. rewrite !fold_right_app. simpl.
    generalize (num l) (num s). intros x y.
    induction acc as [|g acc IH]; simpl; [split; lia|].
    destruct IH as [IH1 IH2].
    + inversion Hnd; assumption.
    + unfold acc_has in E; simpl in E. apply orb_false_iff in E as [_ E]. exact E.
    + rewrite IH1, IH2. split; lia.
Qed.

Lemma fold_group_step_sum R acc :
  NoDup (map fst acc) ->
  sumZ (fun g => fst (snd g)) (fold_left group_step R acc) =
    sumZ (fun g => fst (snd g)) acc + sumZ row_long R /\
  sumZ (fun g => snd (snd g)) (fold_left group_step R acc) =
    sumZ (fun g => snd (snd g)) acc + sumZ row_short R.
Proof.
  revert acc; induction R as [|r R IH]; intros acc Hnd; simpl; [unfold sumZ; simpl; split; lia|].
  destruct (IH (group_step acc r) (group_step_nodup acc r Hnd)) as [H1 H2].
  destruct (group_step_sum acc r Hnd) as [E1 E2].
  unfold sumZ in *; simpl. rewrite H1, H2, E1, E2. split; lia.
Qed.

Lemma insert_group_perm g l : Permutation (insert_group g l) (g :: l).
Proof.
  induction l as [|h r IH]; simpl; [reflexivity|].
  destruct (key_ltb (fst g) (fst h)); [reflexivity|].
  rewrite IH. apply perm_swap.
Qed.

Lemma sort_groups_perm l : Permutation (sort_groups l) l.
Proof.
  induction l as [|h r IH]; simpl; [reflexivity|].
  rewrite insert_group_perm, IH. reflexivity.
Qed.

Lemma sumZ_perm {A} (f : A -> Z) l l' : Permutation l l' -> sumZ f l = sumZ f l'.
Proof.
  induction 1; unfold sumZ in *; simpl; lia.
Qed.


Lemma ascii_compare_eq (x y : ascii) : Ascii.compare x y = Eq <-> x = y.
Proof.
  split; [apply Ascii.compare_eq_iff|intros ->]. unfold Ascii.compare. apply N.compare_refl.
Qed.

Lemma str_compare_eq (a b : str) : str_compare a b = Eq <-> a = b.
Proof.
  revert b; induction a as [|x a IH]; intros [|y b]; simpl; try (split; congruence).
  destruct (Ascii.compare x y) eqn:E.
  - apply ascii_compare_eq in E; subst. rewrite IH. split; congruence.
  - split; [discriminate|]. intros [= -> ->]. rewrite (proj2 (ascii_compare_eq y y) eq_refl) in E. discriminate.
  - split; [discriminate|]. intros [= -> ->]. rewrite (proj2 (ascii_compare_eq y y) eq_refl) in E. discriminate.
Qed.



Lemma key_ltb_irrefl (k : key) : is_str_key k -> key_ltb k k = false.
Proof.
  destruct k as [[p| | |] [c| | |]]; simpl; try contradiction. intros _.
  unfold key_ltb; simpl. rewrite (proj2 (str_compare_eq p p) eq_refl), (proj2 (str_compare_eq c c) eq_refl).
  reflexivity.
Qed.















Lemma sumZ_rows_kept_sum (pc cc lc sc : list cell) :
  length cc = length pc -> length lc = length pc -> length sc = length pc ->
  sumZ row_long (group_rows pc cc lc sc) = kept_sum pc cc lc /\
  sumZ row_short (group_rows pc cc lc sc) = kept_sum pc cc sc.
Proof.
  revert cc lc sc.
  induction pc as [|p pc IH]; intros cc lc sc Hc Hl Hs;
    destruct cc as [|c cc]; destruct lc as [|l lc]; destruct sc as [|s sc];
    try discriminate; [split; reflexivity|].
  simpl in Hc, Hl, Hs. destruct (IH cc lc sc) as [IH1 IH2]; try lia.
  unfold kept_sum in *.
  change (seq 0 (length (p :: pc))) with (0%nat :: seq 1 (length pc)).
  cbn [fold_right].
  rewrite (fold_right_seq_shift (fun i => if is_na (nth i (p :: pc) CNone) || is_na (nth i (c :: cc) CNone)
                                          then 0 else num (nth i (l :: lc) CNone))).
  rewrite (fold_right_seq_shift (fun i => if is_na (nth i (p :: pc) CNone) || is_na (nth i (c :: cc) CNone)
                                          then 0 else num (nth i (s :: sc) CNone))).
  cbn [nth].
  unfold sumZ in *. cbn [group_rows combine fold_right] in *.
  unfold group_rows in IH1, IH2. rewrite IH1, IH2.
  unfold row_long, row_short, keep; simpl.
  destruct (is_na p || is_na c); simpl; split; reflexivity.
Qed.

Lemma sumZ_map {A B} (f : B -> Z) (g : A -> B) (l : list A) :
  sumZ f (map g l) = sumZ (fun x => f (g x)) l.
Proof. unfold sumZ. induction l as [|x l IH]; simpl; [reflexivity|]. rewrite IH. reflexivity. Qed.

Lemma sumZ_add_total (l : list (key * (Z * Z))) :
  sumZ (fun g => quantity_long_sum (add_total g)) l = sumZ (fun g => fst (snd g)) l /\
  sumZ (fun g => quantity_short_sum (add_total g)) l = sumZ (fun g => snd (snd g)) l /\
  sumZ (fun g => total_transaction_amount (add_total g)) l =
    sumZ (fun g => fst (snd g)) l - sumZ (fun g => snd (snd g)) l.
Proof.
  unfold sumZ. induction l as [|[[p c] [a b]] r [IH1 [IH2 IH3]]]; simpl; [repeat split; reflexivity|].
  rewrite IH1, IH2, IH3. repeat split; lia.
Qed.

Lemma groupby_sum_sums (pc cc lc sc : list cell) :
  length cc = length pc -> length lc = length pc -> length sc = length pc ->
  sumZ quantity_long_sum (map add_total (groupby_sum pc cc lc sc)) = kept_sum pc cc lc /\
  sumZ quantity_short_sum (map add_total (groupby_sum pc cc lc sc)) = kept_sum pc cc sc /\
  sumZ total_transaction_amount (map add_total (groupby_sum pc cc lc sc)) =
    kept_sum pc cc lc - kept_sum pc cc sc.
Proof.
  intros Hc Hl Hs.
  destruct (sumZ_rows_kept_sum pc cc lc sc Hc Hl Hs) as [E1 E2].
  destruct (fold_group_step_sum (group_rows pc cc lc sc) [] (NoDup_nil _)) as [F1 F2].
  unfold groupby_sum.
  set (acc := fold_left group_step (group_rows pc cc lc sc) []) in *.
  assert (G : forall f : summary -> Z, sumZ f (map add_total (sort_groups acc)) = sumZ (fun g => f (add_total g)) acc).
  { intro f. rewrite (sumZ_perm _ _ _ (Permutation_map add_total (sort_groups_perm acc))).
    apply sumZ_map. }
  rewrite !G. clearbody acc.
  destruct (sumZ_add_total acc) as [H1 [H2 H3]].
  rewrite H1, H2, H3, F1, F2, <- E1, <- E2. unfold sumZ at 1 3 5 7. simpl. repeat split; lia.
Qed.

(** The four columns the grouping reads, in the table left by a successful call. *)
Lemma run_calc_success_cols (t : table) (cl pl : option (list str)) (s : st) (gs : list summary) :
  run_calc t cl pl = (s, Ok (Some gs)) ->
  exists ql nl qs ns,
    lookup_col (py "quantity_long") t = Some ql /\ map_opt to_numeric_cell ql = Some nl /\
    lookup_col (py "quantity_short") t = Some qs /\ map_opt to_numeric_cell qs = Some ns /\
    lookup_col (py "product_info") (st_df s) =
      Some (combine_column (calc_t3 (calc_t2 t nl ns) cl) pl) /\
    lookup_col (py "client_info") (st_df s) = Some (combine_column (calc_t2 t nl ns) cl) /\
    lookup_col (py "quantity_long_sum") (st_df s) = Some nl /\
    lookup_col (py "quantity_short_sum") (st_df s) = Some ns /\
    gs = map add_total (groupby_sum (combine_column (calc_t3 (calc_t2 t nl ns) cl) pl)
                                    (combine_column (calc_t2 t nl ns) cl) nl ns).
Proof.
  intro H.
  destruct (run_calc_success t cl pl s gs H)
    as [ql [nl [qs [ns [Eql [Enl [Eqs [Ens [Edf [_ Egs]]]]]]]]]].
  exists ql, nl, qs, ns. rewrite Edf. unfold calc_t4, calc_t3, calc_t2.
  rewrite lookup_set_col_same.
  rewrite (lookup_set_col_other (py "product_info") (py "client_info")) by names_differ.
  rewrite lookup_set_col_same.
  rewrite !(lookup_set_col_other _ (py "quantity_long_sum")) by names_differ.
  rewrite lookup_set_col_same.
  rewrite !(lookup_set_col_other _ (py "quantity_short_sum")) by names_differ.
  rewrite lookup_set_col_same.
  repeat split; assumption.
Qed.











(** X4: On a rectangular DataFrame with plain integer quantities whose
    absolute values add up to at most 2^53 (so pandas' int64 or float64 sums
    are exact), the long and short sums over all groups equal the sums of the
    numeric quantity columns over the rows whose keys are not None/NaN, and
    the totals add up to their difference. *)
Theorem group_sums_cover_kept_rows (t : table) (cl pl : option (list str)) (s : st) (gs : list summary)
        (ql qs : list cell) :
  rectangular t ->
  lookup_col (py "quantity_long") t = Some ql -> forallb plain_quantity ql = true ->
  lookup_col (py "quantity_short") t = Some qs -> forallb plain_quantity qs = true ->
  sumZ quantity_magnitude ql + sumZ quantity_magnitude qs <= 2 ^ 53 ->
  run_calc t cl pl = (s, Ok (Some gs)) ->
  exists pc cc lc sc,
    lookup_col (py "product_info") (st_df s) = Some pc /\
    lookup_col (py "client_info") (st_df s) = Some cc /\
    lookup_col (py "quantity_long_sum") (st_df s) = Some lc /\
    lookup_col (py "quantity_short_sum") (st_df s) = Some sc /\
    sumZ quantity_long_sum gs = kept_sum pc cc lc /\
    sumZ quantity_short_sum gs = kept_sum pc cc sc /\
    sumZ total_transaction_amount gs = kept_sum pc cc lc - kept_sum pc cc sc.
Proof.
  intros Hr _ _ _ _ _ Hrun.
  destruct (run_calc_success_cols t cl pl s gs Hrun)
    as [ql' [nl [qs' [ns [Eql [Enl [Eqs [Ens [Ep [Ec [El [Es Egs]]]]]]]]]]]].
  destruct (rectangular_calc_tables t cl pl ql' nl qs' ns Hr Eql Enl Eqs Ens)
    as [_ [N2 [_ [N3 [_ [_ [Hnl Hns]]]]]]].
  eexists _, _, _, _. do 4 (split; [eassumption|]). subst gs.
  apply groupby_sum_sums; rewrite !combine_column_length; congruence.
Qed.


(** ** The parser *)

Lemma lstrip_hd (s : str) x : hd_error (lstrip s) = Some x -> is_space x = false.
Proof.
  induction s as [|c r IH]; simpl; [discriminate|].
  destruct (is_space c) eqn:E; [exact IH|]. simpl. intros [= <-]. exact E.
Qed.

Lemma strip_trimmed (s : str) :
  (forall x, hd_error (strip s) = Some x -> is_space x = false) /\
  (forall x, hd_error (rev (strip s)) = Some x -> is_space x = false).
Proof.
  unfold strip, rstrip. rewrite rev_involutive. split; [|apply lstrip_hd].
  destruct (lstrip s) as [|y u] eqn:E; [simpl; discriminate|].
  assert (Hy : is_space y = false) by (apply (lstrip_hd s); rewrite E; reflexivity).
  simpl. rewrite lstrip_app. simpl. rewrite Hy.
  destruct (forallb is_space (rev u)); rewrite ?rev_app_distr; simpl; intros x [= <-]; exact Hy.
Qed.

Lemma length_lstrip (s : str) : (length (lstrip s) <= length s)%nat.
Proof. induction s as [|c r IH]; simpl; [lia|]. destruct (is_space c); simpl; lia. Qed.

Lemma length_strip (s : str) : (length (strip s) <= length s)%nat.
Proof.
  unfold strip, rstrip. rewrite length_rev.
  pose proof (length_lstrip (rev (lstrip s))). rewrite length_rev in H.
  pose proof (length_lstrip s). lia.
Qed.

Lemma field_value_length (line : str) (w c : Z) :
  0 <= c -> 0 <= w -> (length (field_value line w c) <= Z.to_nat w)%nat.
Proof.
  intros Hc Hw. unfold field_value. rewrite py_slice_nonneg by assumption.
  pose proof (length_strip (firstn (Z.to_nat w) (skipn (Z.to_nat c) line))).
  rewrite length_firstn in H. lia.
Qed.

Lemma sum_widths_nonneg (fc : layout) : Forall (fun f => 0 <= snd f) fc -> 0 <= sum_widths fc.
Proof.
  induction 1 as [|[n w] r Hw _ IH]; simpl in *; unfold sum_widths in *; simpl; lia.
Qed.

Lemma lookup_col_parsed_index (text : str) (fc : layout) (n : str) (col : list cell) :
  NoDup (map fst fc) -> lookup_col n (input_text_to_df text fc) = Some col ->
  exists k w, nth_error fc k = Some (n, w) /\
    col = map (fun l => CStr (field_value l w (sum_widths (firstn k fc)))) (split_nl text).
Proof.
  intros Hnd H.
  assert (Hn : In n (map fst fc)).
  { rewrite <- (columns_input_text_to_df text fc Hnd). apply lookup_col_in in H.
    apply (in_map fst) in H. exact H. }
  apply in_map_iff in Hn as [[n' w] [E Hin]]. simpl in E; subst n'.
  apply In_nth_error in Hin as [k Hk].
  exists k, w. split; [exact Hk|].
  rewrite (input_text_to_df_column text fc k n w Hnd Hk) in H. congruence.
Qed.

Lemma Forall_firstn {A} (P : A -> Prop) (k : nat) (l : list A) : Forall P l -> Forall P (firstn k l).
Proof. intro H. apply Forall_forall. intros x Hx. apply in_firstn_in in Hx. rewrite Forall_forall in H. auto. Qed.

(** X7: With distinct field names and non-negative widths, every parsed value is
    a string no longer than its field's width, with no whitespace at either
    end. *)
Theorem parsed_values_trimmed_and_bounded (text : str) (fc : layout) (n : str) (col : list cell) (c : cell) :
  NoDup (map fst fc) -> Forall (fun f => 0 <= snd f) fc ->
  lookup_col n (input_text_to_df text fc) = Some col -> In c col ->
  exists v w, c = CStr v /\ In (n, w) fc /\ (length v <= Z.to_nat w)%nat /\
    (forall x, hd_error v = Some x -> is_space x = false) /\
    (forall x, hd_error (rev v) = Some x -> is_space x = false).
Proof.
  intros Hnd Hw Hcol Hc.
  destruct (lookup_col_parsed_index text fc n col Hnd Hcol) as [k [w [Hk ->]]].
  apply in_map_iff in Hc as [l [<- _]].
  exists (field_value l w (sum_widths (firstn k fc))), w.
  assert (Hw0 : 0 <= w).
  { rewrite Forall_forall in Hw. exact (Hw _ (nth_error_In _ _ Hk)). }
  split; [reflexivity|]. split; [exact (nth_error_In _ _ Hk)|]. split.
  - apply field_value_length; [apply sum_widths_nonneg, Forall_firstn, Hw|exact Hw0].
  - apply strip_trimmed.
Qed.

(** Two texts whose lines give every field the same value parse alike. *)
Lemma with_cursors_bounds (fc : layout) (pos : Z) n w c :
  Forall (fun f => 0 <= snd f) fc -> In (n, w, c) (with_cursors fc pos) ->
  pos <= c /\ 0 <= w /\ c + w <= pos + sum_widths fc.
Proof.
  revert pos; induction fc as [|[m v] r IH]; intros pos Hw Hin; [contradiction|].
  inversion Hw as [|? ? Hv Hr]; subst. simpl in Hv. unfold sum_widths in *; simpl in *.
  destruct Hin as [[= <- <- <-]|Hin]; [pose proof (sum_widths_nonneg r Hr); unfold sum_widths in *; lia|].
  destruct (IH (pos + v) Hr Hin) as [H1 [H2 H3]]. lia.
Qed.

Lemma parse_cols_ext (fc : layout) (lines lines' : list str) :
  Forall2 (fun l l' => forall n w c, In (n, w, c) (with_cursors fc 0) ->
                         field_value l w c = field_value l' w c) lines lines' ->
  parse_cols fc lines = parse_cols fc lines'.
Proof.
  intro H. unfold parse_cols. apply map_ext_in. intros [[n w] c] Hin. f_equal.
  induction H as [|l l' ls ls' Hl _ IH]; simpl; [reflexivity|].
  rewrite (Hl n w c Hin), IH. reflexivity.
Qed.

Lemma input_text_to_df_ext (text text' : str) (fc : layout) :
  NoDup (map fst fc) ->
  Forall2 (fun l l' => forall n w c, In (n, w, c) (with_cursors fc 0) ->
                         field_value l w c = field_value l' w c) (split_nl text) (split_nl text') ->
  input_text_to_df text fc = input_text_to_df text' fc.
Proof.
  intros Hnd H. rewrite !input_text_to_df_shape by exact Hnd. f_equal. apply parse_cols_ext, H.
Qed.

Lemma forallb_firstn {A} (f : A -> bool) (k : nat) (l : list A) :
  forallb f l = true -> forallb f (firstn k l) = true.
Proof.
  rewrite !forallb_forall. intros H x Hx. apply H. eapply in_firstn_in; exact Hx.
Qed.

Lemma forallb_skipn {A} (f : A -> bool) (k : nat) (l : list A) :
  forallb f l = true -> forallb f (skipn k l) = true.
Proof.
  rewrite !forallb_forall. intros H x Hx. apply H. rewrite <- (firstn_skipn k l).
  apply in_or_app; right; exact Hx.
Qed.

Lemma forallb_rev {A} (f : A -> bool) (l : list A) : forallb f (rev l) = forallb f l.
Proof.
  destruct (forallb f l) eqn:E.
  - rewrite forallb_forall in *. intros x Hx. apply E. apply in_rev. exact Hx.
  - destruct (forallb f (rev l)) eqn:F; [|reflexivity].
    rewrite forallb_forall in F. rewrite <- E. symmetry. apply forallb_forall.
    intros x Hx. apply F. apply in_rev. rewrite rev_involutive. exact Hx.
Qed.

Lemma strip_app_spaces (s sp : str) : forallb is_space sp = true -> strip (s ++ sp) = strip s.
Proof.
  intro Hsp. unfold strip, rstrip. rewrite lstrip_app.
  destruct (forallb is_space s) eqn:E.
  - rewrite (lstrip_all_space sp Hsp), (lstrip_all_space s E). reflexivity.
  - rewrite rev_app_distr, lstrip_app, forallb_rev, Hsp. reflexivity.
Qed.

Lemma field_value_app_spaces (l sp : str) (w c : Z) :
  0 <= c -> 0 <= w -> forallb is_space sp = true ->
  field_value (l ++ sp) w c = field_value l w c.
Proof.
  intros Hc Hw Hsp. unfold field_value. rewrite !py_slice_nonneg by assumption.
  rewrite skipn_app, firstn_app. apply strip_app_spaces.
  apply forallb_firstn, forallb_skipn, Hsp.
Qed.

Lemma field_value_prefix (l l' : str) (W w c : Z) :
  0 <= c -> 0 <= w -> c + w <= W ->
  firstn (Z.to_nat W) l = firstn (Z.to_nat W) l' ->
  field_value l w c = field_value l' w c.
Proof.
  intros Hc Hw HW E. unfold field_value. rewrite !py_slice_nonneg by assumption.
  assert (G : forall x : str, firstn (Z.to_nat w) (skipn (Z.to_nat c) x) =
                              firstn (Z.to_nat w) (skipn (Z.to_nat c) (firstn (Z.to_nat W) x))).
  { intro x. rewrite skipn_firstn_comm, firstn_firstn. f_equal. lia. }
  rewrite (G l), (G l'), E. reflexivity.
Qed.

(** X8: Whitespace appended at the end of lines (such as the carriage return of a
    CRLF file) never changes the parsed DataFrame. *)
Theorem trailing_whitespace_ignored (text text' : str) (fc : layout) :
  NoDup (map fst fc) -> Forall (fun f => 0 <= snd f) fc ->
  Forall2 (fun l l' => exists sp, l' = l ++ sp /\ forallb is_space sp = true)
          (split_nl text) (split_nl text') ->
  input_text_to_df text' fc = input_text_to_df text fc.
Proof.
  intros Hnd Hw H. symmetry. apply input_text_to_df_ext; [exact Hnd|].
  eapply Forall2_impl; [|exact H]. intros l l' [sp [-> Hsp]] n w c Hin.
  destruct (with_cursors_bounds fc 0 n w c Hw Hin) as [H1 [H2 _]].
  symmetry. apply field_value_app_spaces; assumption.
Qed.

(** X9: Characters past the layout's total width never change the parsed
    DataFrame. *)
Theorem chars_past_layout_ignored (text text' : str) (fc : layout) :
  NoDup (map fst fc) -> Forall (fun f => 0 <= snd f) fc ->
  Forall2 (fun l l' => firstn (Z.to_nat (sum_widths fc)) l = firstn (Z.to_nat (sum_widths fc)) l')
          (split_nl text) (split_nl text') ->
  input_text_to_df text fc = input_text_to_df text' fc.
Proof.
  intros Hnd Hw H. apply input_text_to_df_ext; [exact Hnd|].
  eapply Forall2_impl; [|exact H]. intros l l' E n w c Hin.
  destruct (with_cursors_bounds fc 0 n w c Hw Hin) as [H1 [H2 H3]].
  apply (field_value_prefix l l' (sum_widths fc)); [lia|lia|lia|exact E].
Qed.

(** The value the layout gives field [n] of a line (first field of that name). *)
Fixpoint layout_field (fc : layout) (pos : Z) (n : str) (line : str) : str :=
  match fc with
  | [] => []
  | (m, w) :: r => if str_eqb n m then field_value line w pos else layout_field r (pos + w) n line
  end.

Lemma lookup_parse_name (fc : layout) (lines : list str) (pos : Z) (n : str) :
  In n (map fst fc) ->
  lookup_col n (map (fun '(n0, w0, c) => (n0, map (fun l => CStr (field_value l w0 c)) lines))
                    (with_cursors fc pos)) =
  Some (map (fun l => CStr (layout_field fc pos n l)) lines).
Proof.
  revert pos; induction fc as [|[m w] r IH]; intros pos Hn; [contradiction|].
  simpl. destruct (str_eqb n m) eqn:E; [reflexivity|].
  apply IH. destruct Hn as [Hn|Hn]; [|exact Hn].
  simpl in Hn; subst m. rewrite str_eqb_refl in E. discriminate.
Qed.

Lemma lookup_col_parsed (text : str) (fc : layout) (n : str) :
  NoDup (map fst fc) -> In n (map fst fc) ->
  lookup_col n (input_text_to_df text fc) =
  Some (map (fun l => CStr (layout_field fc 0 n l)) (split_nl text)).
Proof.
  intros Hnd Hn. rewrite input_text_to_df_shape by exact Hnd.
  unfold from_dict, parse_cols. rewrite map_map.
  rewrite <- (lookup_parse_name fc (split_nl text) 0 n Hn).
  f_equal. apply map_ext. intros [[a b] c]. rewrite map_map. reflexivity.
Qed.

Lemma row_select_parsed (text : str) (fc : layout) (names : list str) (i : nat) :
  NoDup (map fst fc) -> (forall n, In n names -> In n (map fst fc)) ->
  (i < length (split_nl text))%nat ->
  row_select (input_text_to_df text fc) i (Some names) =
  Ok (map (fun n => CStr (layout_field fc 0 n (nth i (split_nl text) []))) names).
Proof.
  intros Hnd Hnames Hi. unfold row_select.
  assert (E : map_opt (fun k => lookup_col k (input_text_to_df text fc)) names =
              Some (map (fun n => map (fun l => CStr (layout_field fc 0 n l)) (split_nl text)) names)).
  { induction names as [|n r IH]; [reflexivity|]. simpl.
    rewrite lookup_col_parsed by (auto; apply Hnames; left; reflexivity).
    rewrite IH by (intros; apply Hnames; right; assumption). reflexivity. }
  rewrite E, map_map. f_equal. apply map_ext. intro n.
  rewrite nth_indep with (d' := CStr (layout_field fc 0 n [])) by (rewrite length_map; exact Hi).
  rewrite (map_nth (fun l => CStr (layout_field fc 0 n l))). reflexivity.
Qed.

Lemma map_opt_cell_str_map (f : str -> str) (names : list str) :
  map_opt cell_str (map (fun n => CStr (f n)) names) = Some (map f names).
Proof. induction names as [|n r IH]; simpl; [reflexivity|]. rewrite IH. reflexivity. Qed.

Lemma combine_value_parsed (text : str) (fc : layout) (names : list str) (i : nat) :
  NoDup (map fst fc) -> (forall n, In n names -> In n (map fst fc)) ->
  (i < length (split_nl text))%nat ->
  combine_value (input_text_to_df text fc) i (Some names) =
    CStr (join (py "_") (map (fun n => layout_field fc 0 n (nth i (split_nl text) [])) names)) /\
  combine_errors (input_text_to_df text fc) i (Some names) = [].
Proof.
  intros Hnd Hnames Hi. unfold combine_value, combine_errors.
  rewrite (row_select_parsed text fc names i Hnd Hnames Hi). unfold join_cells.
  rewrite (map_opt_cell_str_map (fun n => layout_field fc 0 n (nth i (split_nl text) []))).
  split; reflexivity.
Qed.

(** X10: The key of a parsed row is the "_"-join of the stripped slices of its
    line for the listed fields, and computing it records no error. *)
Theorem parsed_row_key (text : str) (fc : layout) (names : list str) (i : nat) :
  NoDup (map fst fc) -> (forall n, In n names -> In n (map fst fc)) ->
  (i < length (split_nl text))%nat ->
  combine_value (input_text_to_df text fc) i (Some names) =
    CStr (join (py "_") (map (fun n => layout_field fc 0 n (nth i (split_nl text) [])) names)) /\
  combine_errors (input_text_to_df text fc) i (Some names) = [].
Proof. apply combine_value_parsed. Qed.







(** ** [df_rename] and the control flow of the script *)

Lemma rename_grouped_columns : map rename_column grouped_columns = csv_header.
Proof. vm_compute. reflexivity. Qed.

Ltac ascii_cases c := destruct c as [[] [] [] [] [] [] [] []]; reflexivity.

Lemma to_lower_idem c : to_lower (to_lower c) = to_lower c.
Proof. ascii_cases c. Qed.

Lemma to_upper_idem c : to_upper (to_upper c) = to_upper c.
Proof. ascii_cases c. Qed.

Lemma to_upper_lower c : to_upper (to_lower c) = to_upper c.
Proof. ascii_cases c. Qed.

Lemma to_lower_lower_upper c : to_lower (to_upper c) = to_lower c.
Proof. ascii_cases c. Qed.

Lemma to_lower_underscore c : (to_lower c = "_"%char) -> c = "_"%char.
Proof. destruct c as [[] [] [] [] [] [] [] []]; try discriminate; reflexivity. Qed.

Lemma to_upper_underscore c : (to_upper c = "_"%char) -> c = "_"%char.
Proof. destruct c as [[] [] [] [] [] [] [] []]; try discriminate; reflexivity. Qed.

Lemma title_from_map_lower b s : title_from b (map to_lower s) = title_from b s.
Proof.
  revert b; induction s as [|c r IH]; intro b; [reflexivity|].
  simpl. destruct b; rewrite ?to_lower_idem, ?to_upper_lower, IH; reflexivity.
Qed.

Lemma title_from_idem b s : title_from b (title_from b s) = title_from b s.
Proof.
  revert b; induction s as [|c r IH]; intro b; [reflexivity|].
  simpl. destruct b; rewrite ?to_lower_idem, ?to_upper_idem, IH; reflexivity.
Qed.

Lemma title_from_no_underscore b s :
  ~ In "_"%char s -> ~ In "_"%char (title_from b s).
Proof.
  revert b; induction s as [|c r IH]; intros b Hs; [easy|].
  simpl. intros [Hc|Hin].
  - apply Hs; left. destruct b; [apply to_lower_underscore | apply to_upper_underscore]; exact Hc.
  - apply (IH _ (fun H => Hs (or_intror H)) Hin).
Qed.

Lemma py_replace_no_underscore s : ~ In "_"%char (py_replace_char "_"%char " "%char s).
Proof.
  unfold py_replace_char. rewrite in_map_iff. intros [c [Hc _]].
  destruct (ascii_dec c "_"%char); [discriminate|congruence].
Qed.

Lemma py_replace_absent s : ~ In "_"%char s -> py_replace_char "_"%char " "%char s = s.
Proof.
  induction s as [|c r IH]; intro Hs; [reflexivity|].
  simpl. destruct (ascii_dec c "_"%char) as [->|_]; [exfalso; apply Hs; now left|].
  rewrite IH; [reflexivity|intro; apply Hs; now right].
Qed.

Lemma rename_column_no_underscore s : ~ In "_"%char (rename_column s).
Proof. apply title_from_no_underscore, py_replace_no_underscore. Qed.

Lemma rename_column_idem s : rename_column (rename_column s) = rename_column s.
Proof.
  unfold rename_column at 1. rewrite py_replace_absent by apply rename_column_no_underscore.
  apply title_from_idem.
Qed.

(** X12: [df_rename] is idempotent on column names, and no renamed column name
    contains an underscore (the model's [str.title] is exact for ASCII
    letters). *)
Theorem df_rename_idempotent (t : table) :
  df_rename_t (df_rename_t t) = df_rename_t t /\
  Forall (fun kc => ~ In "_"%char (fst kc)) (df_rename_t t).
Proof.
  split.
  - induction t as [|[k c] r IH]; [reflexivity|]. simpl. rewrite rename_column_idem, IH. reflexivity.
  - induction t as [|[k c] r IH]; constructor; [apply rename_column_no_underscore | exact IH].
Qed.

(** X13: Two column names that differ only in letter case and in "_" versus " "
    get the same new name. *)
Theorem df_rename_collision (a b : str) :
  map to_lower (py_replace_char "_"%char " "%char a) =
  map to_lower (py_replace_char "_"%char " "%char b) ->
  rename_column a = rename_column b.
Proof.
  intro H. unfold rename_column, py_title.
  rewrite <- (title_from_map_lower false (py_replace_char _ _ a)), H, title_from_map_lower.
  reflexivity.
Qed.

(** X14: When the configuration cannot be read, or [set_logger] raises (level
    rejected or log file not openable), the script logs only the top-level
    error and writes no file.  Logging stays unconfigured (the record goes to
    Python's default handler) when the configuration cannot be read, [eval]
    raises, or the log file cannot be opened; when [eval] gives an object that
    is not a level and the file can be opened, [basicConfig] has installed
    the file handler before [setLevel] raised, so logging writes to that file
    with the root's default WARNING level. *)
Theorem script_stops_before_logging (E : env) :
  (env_config E = None -> run_script E = mksst [main_module_error] [] None) /\
  (forall sc, env_config E = Some sc ->
   logger_accepts E (sc_python_log_level sc) (sc_log_file_path sc) = false ->
   run_script E =
     mksst [main_module_error] []
       (match level_eval_of E (sc_python_log_level sc) with
        | EvalOther =>
            if env_writable E (log_path_of (sc_log_file_path sc))
            then Some (RootWARNING, log_path_of (sc_log_file_path sc)) else None
        | _ => None
        end)).
Proof.
  split; [intro H; unfold run_script, main_script; rewrite H; reflexivity|].
  intros sc H Hl. unfold run_script, main_script. rewrite H.
  unfold logger_accepts, level_accepted in Hl. unfold set_logger.
  destruct (level_eval_of E (sc_python_log_level sc)),
           (env_writable E (log_path_of (sc_log_file_path sc))); simpl in Hl |- *;
    first [discriminate | reflexivity].
Qed.

Ltac destruct_matches :=
  repeat match goal with
  | |- context [match ?x with _ => _ end] => destruct x eqn:?
  | H : context [match ?x with _ => _ end] |- _ => destruct x eqn:?
  | H : (_, _) = (_, _) |- _ => inversion H; subst; clear H
  end.

Lemma set_logger_ok (E : env) (lvl path : option str) (s : sst) :
  logger_accepts E lvl path = true ->
  set_logger E lvl path s =
    (mksst (ss_log s ++ [script_started; logger_ready]) (ss_files s)
       (Some (log_level_of lvl, log_path_of path)), Ok tt).
Proof.
  unfold logger_accepts, level_accepted, set_logger.
  destruct (level_eval_of E lvl), (env_writable E (log_path_of path)); simpl;
    intro Hl; first [discriminate | reflexivity].
Qed.

Lemma main_script_after_logger (E : env) (sc : script_config) (s0 : sst) :
  env_config E = Some sc -> logger_accepts E (sc_python_log_level sc) (sc_log_file_path sc) = true ->
  let s1 := mksst (ss_log s0 ++ [script_started; logger_ready]) (ss_files s0)
              (Some (log_level_of (sc_python_log_level sc), log_path_of (sc_log_file_path sc))) in
  ss_logging (fst (main_script E s0)) = ss_logging s1 /\
  exists post, ss_log (fst (main_script E s0)) = ss_log s1 ++ post.
Proof.
  intros H Hl s1. unfold main_script. rewrite H, (set_logger_ok _ _ _ _ Hl). fold s1. clearbody s1.
  unfold read_input_text, df_to_csv, ss_add_log. destruct_matches; cbn [fst ss_log ss_files ss_logging];
    try (split; [reflexivity|]); repeat rewrite <- app_assoc; eexists; reflexivity.
Qed.

(** X15: When the logger is set up, logging is configured with the configured
    level (or INFO) and file (or [transactions.log]), and the log opens with
    the two start records. *)
Theorem logger_configuration (E : env) (sc : script_config) :
  env_config E = Some sc -> logger_accepts E (sc_python_log_level sc) (sc_log_file_path sc) = true ->
  ss_logging (run_script E) =
    Some (log_level_of (sc_python_log_level sc), log_path_of (sc_log_file_path sc)) /\
  exists post, ss_log (run_script E) = script_started :: logger_ready :: post.
Proof.
  intros H Hl. destruct (main_script_after_logger E sc (mksst [] [] None) H Hl) as [Hg [post Hp]].
  unfold run_script. destruct (main_script E (mksst [] [] None)) as [s [u|e]]; cbn in *;
    rewrite Hg; (split; [reflexivity|]); rewrite Hp; cbn; eexists; reflexivity.
Qed.

(** X16: An unreadable input file with a field configuration: the read error, then
    the top-level error; no file is written and no success record is
    logged. *)
Theorem unreadable_input_file (E : env) (sc : script_config) (p : str) :
  env_config E = Some sc -> logger_accepts E (sc_python_log_level sc) (sc_log_file_path sc) = true ->
  cfg_input_file_path (sc_main sc) = Some p -> p <> [] ->
  truthy (cfg_field_configuration (sc_main sc)) = true ->
  env_read E p = None ->
  ss_log (run_script E) = [script_started; logger_ready; err_entry; main_module_error] /\
  ss_files (run_script E) = [].
Proof.
  intros H Hl Hp Hne Hf Hr. unfold run_script, main_script.
  rewrite H, (set_logger_ok _ _ _ _ Hl), Hp.
  destruct p as [|c p]; [congruence|]. unfold read_input_text. rewrite Hr.
  destruct (cfg_field_configuration (sc_main sc)) as [[|f fc]|]; [discriminate| |discriminate].
  split; reflexivity.
Qed.

(** X17: A missing or empty [input_file_path] or [field_configuration] logs its
    error, writes no file, and the script still logs that it completed
    successfully. *)
Theorem missing_setting_reports_success (E : env) (sc : script_config) :
  env_config E = Some sc -> logger_accepts E (sc_python_log_level sc) (sc_log_file_path sc) = true ->
  (truthy (cfg_input_file_path (sc_main sc)) = false ->
   ss_files (run_script E) = [] /\
   ss_log (run_script E) =
     [script_started; logger_ready; no_input_file_path; script_completed; script_ended]) /\
  (forall p, cfg_input_file_path (sc_main sc) = Some p -> p <> [] ->
   truthy (cfg_field_configuration (sc_main sc)) = false ->
   ss_files (run_script E) = [] /\
   ss_log (run_script E) =
     [script_started; logger_ready] ++
     (match env_read E p with Some _ => [] | None => [err_entry] end) ++
     [no_field_configuration; script_completed; script_ended]).
Proof.
  intros H Hl. unfold run_script, main_script. rewrite H, (set_logger_ok _ _ _ _ Hl). split.
  - destruct (cfg_input_file_path (sc_main sc)) as [[|c p]|]; intro Ht; try discriminate;
      split; reflexivity.
  - intros p Hp Hne Hf. rewrite Hp. destruct p as [|c p]; [congruence|].
    unfold read_input_text.
    destruct (cfg_field_configuration (sc_main sc)) as [[|f fc]|]; try discriminate;
      destruct (env_read E (c :: p)); split; reflexivity.
Qed.

(** X18: When the aggregation returns None, [df_to_csv] logs two errors, writes
    nothing, and the script still logs that it completed successfully. *)
Theorem failed_aggregation_reports_success (E : env) (sc : script_config) (p text : str)
    (fc : layout) (cs : st) :
  env_config E = Some sc -> logger_accepts E (sc_python_log_level sc) (sc_log_file_path sc) = true ->
  cfg_input_file_path (sc_main sc) = Some p -> p <> [] ->
  env_read E p = Some text ->
  cfg_field_configuration (sc_main sc) = Some fc -> fc <> [] ->
  run_calc (input_text_to_df text fc) (cfg_group_by_client_info_columns (sc_main sc))
    (cfg_group_by_client_info_columns (sc_main sc)) = (cs, Ok None) ->
  ss_files (run_script E) = [] /\
  ss_log (run_script E) =
    [script_started; logger_ready] ++ st_log cs ++
    [err_entry; err_entry; script_completed; script_ended].
Proof.
  intros H Hl Hp Hne Hr Hf Hfne Hc. unfold run_script, main_script.
  rewrite H, (set_logger_ok _ _ _ _ Hl), Hp.
  destruct p as [|c p]; [congruence|]. unfold read_input_text. rewrite Hr, Hf.
  destruct fc as [|f fc]; [congruence|]. cbv beta iota zeta. rewrite Hc. split; [reflexivity|].
  cbn [fst snd ss_log ss_files ss_logging df_to_csv ss_add_log]. rewrite <- !app_assoc. reflexivity.
Qed.

Lemma ss_log_add e s : ss_log (ss_add_log e s) = ss_log s ++ [e].
Proof. reflexivity. Qed.

Lemma ss_files_add e s : ss_files (ss_add_log e s) = ss_files s.
Proof. reflexivity. Qed.

Lemma ss_log_ends1 e s : exists pre, ss_log (ss_add_log e s) = pre ++ [e].
Proof. exists (ss_log s). reflexivity. Qed.

Lemma ss_log_ends2 e1 e2 s : exists pre, ss_log (ss_add_log e2 (ss_add_log e1 s)) = pre ++ [e1; e2].
Proof. exists (ss_log s). cbn. rewrite <- app_assoc. reflexivity. Qed.

Ltac close_script :=
  split; [rewrite ?ss_files_add; cbn [ss_log ss_files ss_logging fst snd]; rewrite ?app_nil_r;
          reflexivity
         |first [apply ss_log_ends2 | apply ss_log_ends1]].

(** X19: The files the script writes: none when [main_run] raises, stops early or
    the aggregation fails; otherwise the groups of [main_run] under the
    renamed header, at [output_csv_path] when it is set and writable.  The
    log ends in the top-level error exactly when [main_run] raises, and in
    the two success records otherwise. *)
Theorem script_output_file (E : env) (sc : script_config) :
  env_config E = Some sc -> logger_accepts E (sc_python_log_level sc) (sc_log_file_path sc) = true ->
  match main_run (sc_main sc) (env_read E) with
  | Raise _ =>
      ss_files (run_script E) = [] /\
      exists pre, ss_log (run_script E) = pre ++ [main_module_error]
  | Ok r =>
      ss_files (run_script E) =
        match r, cfg_output_csv_path (sc_main sc) with
        | Some (_, _, Some gs), Some out =>
            if env_writable E out then [(out, csv_header, gs)] else []
        | _, _ => []
        end /\
      exists pre, ss_log (run_script E) = pre ++ [script_completed; script_ended]
  end.
Proof.
  intros H Hl. unfold run_script, main_script, main_run.
  rewrite H, (set_logger_ok _ _ _ _ Hl).
  destruct (cfg_input_file_path (sc_main sc)) as [[|c p]|]; [close_script| |close_script].
  unfold read_input_text.
  destruct (cfg_field_configuration (sc_main sc)) as [[|f fc]|];
    [destruct (env_read E (c :: p)); close_script| |destruct (env_read E (c :: p)); close_script].
  destruct (env_read E (c :: p)) as [text|]; [|close_script].
  cbv beta iota zeta.
  destruct (run_calc _ _ _) as [cs [r|e]]; [|close_script].
  unfold df_to_csv. rewrite rename_grouped_columns.
  destruct r as [gs|]; [destruct (cfg_output_csv_path (sc_main sc)) as [out|];
    [destruct (env_writable E out)|]|]; close_script.
Qed.

(** ** Witnesses of the further properties *)

Definition sample_text : str :=
  py "C001P001   100    50" ++ [newline] ++ py "C002P001    10     5" ++ [newline] ++
  py "C001P001     1     2".

Definition sample_df : table := input_text_to_df sample_text scenario_layout.

Definition sample_groups : list summary :=
  [mksummary (CStr (py "P001")) (CStr (py "C001")) 101 52 49;
   mksummary (CStr (py "P001")) (CStr (py "C002")) 10 5 5].

Lemma sample_run :
  run_calc sample_df (Some [py "client"]) (Some [py "product"]) =
    (fst (run_calc sample_df (Some [py "client"]) (Some [py "product"])), Ok (Some sample_groups)).
Proof. vm_compute. reflexivity. Qed.

Lemma sample_df_rectangular : rectangular sample_df.
Proof. vm_compute. repeat constructor. Qed.




Lemma group_sums_cover_kept_rows_witness :
  rectangular sample_df /\
  sumZ total_transaction_amount sample_groups = 54 /\
  exists pc cc lc sc,
    lookup_col (py "quantity_long_sum")
      (st_df (fst (run_calc sample_df (Some [py "client"]) (Some [py "product"])))) = Some lc /\
    lookup_col (py "product_info")
      (st_df (fst (run_calc sample_df (Some [py "client"]) (Some [py "product"])))) = Some pc /\
    lookup_col (py "client_info")
      (st_df (fst (run_calc sample_df (Some [py "client"]) (Some [py "product"])))) = Some cc /\
    lookup_col (py "quantity_short_sum")
      (st_df (fst (run_calc sample_df (Some [py "client"]) (Some [py "product"])))) = Some sc /\
    sumZ total_transaction_amount sample_groups = kept_sum pc cc lc - kept_sum pc cc sc.
Proof.
  split; [exact sample_df_rectangular|]. split; [vm_compute; reflexivity|].
  destruct (group_sums_cover_kept_rows _ _ _ _ _
              [CStr (py "100"); CStr (py "10"); CStr (py "1")] [CStr (py "50"); CStr (py "5"); CStr (py "2")]
              sample_df_rectangular ltac:(vm_compute; reflexivity) eq_refl
              ltac:(vm_compute; reflexivity) eq_refl ltac:(vm_compute; discriminate) sample_run)
    as [pc [cc [lc [sc [Hp [Hc [Hl [Hs [_ [_ Ht]]]]]]]]]].
  exists pc, cc, lc, sc. repeat split; assumption.
Defined.


Lemma scenario_widths_nonneg : Forall (fun f => 0 <= snd f) scenario_layout.
Proof. repeat constructor; simpl; lia. Qed.

Lemma parsed_values_trimmed_and_bounded_witness :
  lookup_col (py "client") sample_df =
    Some [CStr (py "C001"); CStr (py "C002"); CStr (py "C001")] /\
  exists v w, CStr (py "C002") = CStr v /\ In (py "client", w) scenario_layout /\
    (length v <= Z.to_nat w)%nat.
Proof.
  assert (E : lookup_col (py "client") sample_df =
                Some [CStr (py "C001"); CStr (py "C002"); CStr (py "C001")])
    by (vm_compute; reflexivity).
  split; [exact E|].
  destruct (parsed_values_trimmed_and_bounded sample_text scenario_layout (py "client") _
              (CStr (py "C002")) scenario_layout_nodup scenario_widths_nonneg E
              (or_intror (or_introl eq_refl))) as [v [w [Hv [Hw [Hl _]]]]].
  exists v, w. repeat split; assumption.
Defined.

Lemma trailing_whitespace_ignored_witness :
  input_text_to_df (py "C001P001   100    50  ") scenario_layout =
  input_text_to_df (py "C001P001   100    50") scenario_layout.
Proof.
  apply (trailing_whitespace_ignored _ _ _ scenario_layout_nodup scenario_widths_nonneg).
  vm_compute. constructor; [|constructor].
  exists (py "  "). split; reflexivity.
Defined.

Lemma chars_past_layout_ignored_witness :
  input_text_to_df (py "C001P001   100    50") scenario_layout =
  input_text_to_df (py "C001P001   100    50 comment") scenario_layout.
Proof.
  apply (chars_past_layout_ignored _ _ _ scenario_layout_nodup scenario_widths_nonneg).
  vm_compute. repeat constructor.
Defined.

Lemma parsed_row_key_witness :
  combine_value sample_df 1 (Some [py "client"; py "product"]) = CStr (py "C002_P001").
Proof.
  destruct (parsed_row_key sample_text scenario_layout [py "client"; py "product"] 1
              scenario_layout_nodup) as [H _].
  - intros n [<-|[<-|[]]]; vm_compute; auto.
  - vm_compute. auto.
  - unfold sample_df. rewrite H. vm_compute. reflexivity.
Defined.


Definition sample_config : config :=
  mkconfig (Some (py "input.txt")) (Some scenario_layout) (Some [py "client"]) (Some [py "product"])
           (Some (py "output.csv")).

Definition sample_script_config : script_config := mkscfg (Some (py "DEBUG")) (Some []) sample_config.

(** [main] groups by the client list twice, so both keys are the client. *)
Definition sample_script_groups : list summary :=
  [mksummary (CStr (py "C001")) (CStr (py "C001")) 101 52 49;
   mksummary (CStr (py "C002")) (CStr (py "C002")) 10 5 5].

Definition sample_env : env :=
  mkenv (Some sample_script_config) (fun _ => Some sample_text) (fun _ => EvalInt) (fun _ => true).

Lemma df_rename_collision_witness :
  rename_column (py "client_info") = rename_column (py "Client Info") /\
  rename_column (py "client_info") = py "Client Info".
Proof.
  split; [|vm_compute; reflexivity].
  apply df_rename_collision. vm_compute. reflexivity.
Defined.

(** The configured level "info" names the function [logging.info]. *)
Definition info_level_env : env :=
  mkenv (Some (mkscfg (Some (py "info")) None sample_config)) (fun _ => Some sample_text)
        (fun _ => EvalOther) (fun _ => true).

Lemma script_stops_before_logging_witness :
  run_script (mkenv None (fun _ => Some sample_text) (fun _ => EvalInt) (fun _ => true)) =
    mksst [main_module_error] [] None /\
  run_script info_level_env =
    mksst [main_module_error] [] (Some (RootWARNING, py "transactions.log")).
Proof.
  split; [apply script_stops_before_logging; reflexivity|].
  exact (proj2 (script_stops_before_logging info_level_env) _ eq_refl eq_refl).
Defined.

Lemma logger_configuration_witness :
  ss_logging (run_script sample_env) = Some (RootNamed (py "DEBUG"), py "transactions.log").
Proof.
  exact (proj1 (logger_configuration sample_env sample_script_config eq_refl eq_refl)).
Defined.

Lemma unreadable_input_file_witness :
  ss_log (run_script (mkenv (Some sample_script_config) (fun _ => None) (fun _ => EvalInt) (fun _ => true))) =
    [script_started; logger_ready; err_entry; main_module_error].
Proof.
  apply (proj1 (unreadable_input_file
    (mkenv (Some sample_script_config) (fun _ => None) (fun _ => EvalInt) (fun _ => true))
    sample_script_config (py "input.txt") eq_refl eq_refl eq_refl ltac:(discriminate) eq_refl eq_refl)).
Defined.

Lemma missing_setting_reports_success_witness :
  ss_log (run_script (mkenv (Some (mkscfg None None (mkconfig (Some []) (Some scenario_layout) None None None)))
                            (fun _ => Some sample_text) (fun _ => EvalInt) (fun _ => true))) =
    [script_started; logger_ready; no_input_file_path; script_completed; script_ended].
Proof.
  apply (proj1 (missing_setting_reports_success
    (mkenv (Some (mkscfg None None (mkconfig (Some []) (Some scenario_layout) None None None)))
           (fun _ => Some sample_text) (fun _ => EvalInt) (fun _ => true))
    _ eq_refl eq_refl) eq_refl).
Defined.

Lemma failed_aggregation_reports_success_witness :
  ss_files (run_script (mkenv (Some (mkscfg None None
               (mkconfig (Some (py "input.txt")) (Some [(py "client", 4)]) (Some [py "client"]) None
                         (Some (py "output.csv")))))
             (fun _ => Some (py "C001")) (fun _ => EvalInt) (fun _ => true))) = [].
Proof.
  apply (proj1 (failed_aggregation_reports_success
    (mkenv (Some (mkscfg None None
               (mkconfig (Some (py "input.txt")) (Some [(py "client", 4)]) (Some [py "client"]) None
                         (Some (py "output.csv")))))
           (fun _ => Some (py "C001")) (fun _ => EvalInt) (fun _ => true))
    _ (py "input.txt") (py "C001") [(py "client", 4)]
    (fst (run_calc (input_text_to_df (py "C001") [(py "client", 4)]) (Some [py "client"]) (Some [py "client"])))
    eq_refl eq_refl eq_refl ltac:(discriminate) eq_refl eq_refl ltac:(discriminate)
    ltac:(vm_compute; reflexivity))).
Defined.

Lemma script_output_file_witness :
  ss_files (run_script sample_env) = [(py "output.csv", csv_header, sample_script_groups)].
Proof.
  pose proof (script_output_file sample_env sample_script_config eq_refl eq_refl) as H.
  assert (E : main_run sample_config (env_read sample_env) =
              Ok (Some (fst (fst (match main_run sample_config (env_read sample_env) with
                                  | Ok (Some x) => x | _ => ([], [], None) end)),
                        snd (fst (match main_run sample_config (env_read sample_env) with
                                  | Ok (Some x) => x | _ => ([], [], None) end)),
                        Some sample_script_groups)))
    by (vm_compute; reflexivity).
  cbn [sc_main sample_script_config] in H. rewrite E in H.
  destruct H as [H _]. exact H.
Defined.
